(** * mc-server-util: the status-query and RCON codecs and sessions of
      [src/index.js], embedded in Rocq.

    The JavaScript numbers that the program manipulates are integers; they
    are modelled by [Z], and every 32-bit conversion that a JavaScript
    bitwise operator performs is written out ([ToInt32], [ToUint32]).  A
    [Buffer] is a list of bytes, a JavaScript string is the list of its
    UTF-16 code units, a thrown exception is the [Err] case of [result],
    and an event handler is a function from session state to session
    state. *)

From Stdlib Require Import ZArith Lia.
From Stdlib Require DecimalString HexadecimalString.
From stdpp Require Import base list strings.
Open Scope Z_scope.

(** ** Exceptions *)

Module Js.

(** The error objects the program throws or receives.  [Error m] is
    [new Error(m)]; [TypeError] and [RangeError] are raised by the runtime;
    [LoopBound] is not a JavaScript error: it is the answer of a loop of the
    model whose iteration budget is used up, which [varintEncode_returns]
    shows never happens. *)
Inductive error : Type :=
| Error (message : string)
| TypeError (message : string)
| RangeError (message : string)
| LoopBound.

Definition message (e : error) : string :=
  match e with
  | Error m | TypeError m | RangeError m => m
  | LoopBound => "loop bound"
  end.

Inductive result (A : Type) : Type :=
| Ok (a : A)
| Err (e : error).
Arguments Ok {A} a.
Arguments Err {A} e.

Definition bind {A B : Type} (r : result A) (k : A -> result B) : result B :=
  match r with
  | Ok a => k a
  | Err e => Err e
  end.

(** [Array.prototype.map] with a callback that may throw. *)
Fixpoint mapM {A B : Type} (f : A -> result B) (l : list A) : result (list B) :=
  match l with
  | [] => Ok []
  | x :: l' =>
      match f x with
      | Err e => Err e
      | Ok y => match mapM f l' with
                | Err e => Err e
                | Ok ys => Ok (y :: ys)
                end
      end
  end.

End Js.
Import Js.

Notation "'let*' x ':=' r 'in' k" := (bind r (fun x => k))
  (at level 10, x pattern, r at level 100, k at level 200).

(** ** 32-bit conversions of the bitwise operators *)

Definition ToUint32 (x : Z) : Z := x mod 2 ^ 32.

Definition ToInt32 (x : Z) : Z :=
  let int32bit := x mod 2 ^ 32 in
  if 2 ^ 31 <=? int32bit then int32bit - 2 ^ 32 else int32bit.

(** [a << n]: the left operand is converted, the count is taken modulo 32. *)
Definition js_shl (a n : Z) : Z :=
  ToInt32 (Z.shiftl (ToInt32 a) (ToUint32 n mod 32)).

(** [a >>> n] *)
Definition js_shru (a n : Z) : Z :=
  Z.shiftr (ToUint32 a) (ToUint32 n mod 32).

(** [a >> n] *)
Definition js_shr (a n : Z) : Z :=
  Z.shiftr (ToInt32 a) (ToUint32 n mod 32).

Definition js_and (a b : Z) : Z := Z.land (ToInt32 a) (ToInt32 b).
Definition js_or (a b : Z) : Z := Z.lor (ToInt32 a) (ToInt32 b).

(** ** Strings *)

(** A JavaScript string: its UTF-16 code units. *)
Abbreviation jsstring := (list Z).

(** The JavaScript string of an ASCII literal. *)
Definition js (s : string) : jsstring :=
  map (fun a => Z.of_N (Ascii.N_of_ascii a)) (String.list_ascii_of_string s).

(** [n.toString()] and [n.toString(16)] of an integer. *)
Definition toString10 (n : Z) : string :=
  DecimalString.NilZero.string_of_int (Z.to_int n).
Definition toString16 (n : Z) : string :=
  HexadecimalString.NilZero.string_of_int (Z.to_hex_int n).

Definition is_high_surrogate (c : Z) : bool := (0xD800 <=? c) && (c <=? 0xDBFF).
Definition is_low_surrogate (c : Z) : bool := (0xDC00 <=? c) && (c <=? 0xDFFF).

(** The code point that a surrogate pair stands for. *)
Definition pair_code_point (hi lo : Z) : Z :=
  0x10000 + Z.shiftl (hi - 0xD800) 10 + (lo - 0xDC00).

(** The UTF-8 bytes of one code point. *)
Definition utf8_of_code_point (cp : Z) : list Z :=
  if cp <? 0x80 then [cp]
  else if cp <? 0x800 then
    [Z.lor 0xC0 (Z.shiftr cp 6); Z.lor 0x80 (Z.land cp 0x3F)]
  else if cp <? 0x10000 then
    [Z.lor 0xE0 (Z.shiftr cp 12);
     Z.lor 0x80 (Z.land (Z.shiftr cp 6) 0x3F);
     Z.lor 0x80 (Z.land cp 0x3F)]
  else
    [Z.lor 0xF0 (Z.shiftr cp 18);
     Z.lor 0x80 (Z.land (Z.shiftr cp 12) 0x3F);
     Z.lor 0x80 (Z.land (Z.shiftr cp 6) 0x3F);
     Z.lor 0x80 (Z.land cp 0x3F)].

(** [Buffer.from(s, 'utf8')]: surrogate pairs become one four-byte
    sequence, a surrogate that has no partner becomes U+FFFD. *)
Fixpoint utf8_encode (s : jsstring) : list Z :=
  match s with
  | [] => []
  | c :: rest =>
      if is_high_surrogate c then
        match rest with
        | d :: rest' =>
            if is_low_surrogate d
            then utf8_of_code_point (pair_code_point c d) ++ utf8_encode rest'
            else utf8_of_code_point 0xFFFD ++ utf8_encode rest
        | [] => utf8_of_code_point 0xFFFD
        end
      else if is_low_surrogate c then utf8_of_code_point 0xFFFD ++ utf8_encode rest
      else utf8_of_code_point c ++ utf8_encode rest
  end.

(** A JavaScript string as it stands in a message of the engine: the
    text of its UTF-8 bytes. *)
Definition text_of (s : jsstring) : string :=
  String.string_of_list_ascii
    (map (fun b => Ascii.ascii_of_N (Z.to_N b)) (utf8_encode s)).

(** The code points of a byte sequence, by the decoder of the Encoding
    Standard that [buf.toString('utf8')] runs: [needed] continuation bytes
    are awaited, of which [seen] have come, the next one within
    [lower..upper]; an ill-formed or truncated sequence gives U+FFFD and
    the byte that broke it is read again as the start of a sequence. *)
Fixpoint utf8_decode_loop (bytes : list Z) (cp needed seen lower upper : Z)
  : list Z :=
  match bytes with
  | [] => if needed =? 0 then [] else [0xFFFD]
  | b :: rest =>
      let start :=
        if b <=? 0x7F then b :: utf8_decode_loop rest 0 0 0 0x80 0xBF
        else if (0xC2 <=? b) && (b <=? 0xDF) then
          utf8_decode_loop rest (Z.land b 0x1F) 1 0 0x80 0xBF
        else if (0xE0 <=? b) && (b <=? 0xEF) then
          utf8_decode_loop rest (Z.land b 0xF) 2 0
            (if b =? 0xE0 then 0xA0 else 0x80) (if b =? 0xED then 0x9F else 0xBF)
        else if (0xF0 <=? b) && (b <=? 0xF4) then
          utf8_decode_loop rest (Z.land b 0x7) 3 0
            (if b =? 0xF0 then 0x90 else 0x80) (if b =? 0xF4 then 0x8F else 0xBF)
        else 0xFFFD :: utf8_decode_loop rest 0 0 0 0x80 0xBF in
      if needed =? 0 then start
      else if (b <? lower) || (upper <? b) then 0xFFFD :: start
      else
        let cp := Z.lor (Z.shiftl cp 6) (Z.land b 0x3F) in
        if seen + 1 =? needed then cp :: utf8_decode_loop rest 0 0 0 0x80 0xBF
        else utf8_decode_loop rest cp needed (seen + 1) 0x80 0xBF
  end.

(** The UTF-16 code units of one code point. *)
Definition utf16_of_code_point (cp : Z) : jsstring :=
  if cp <? 0x10000 then [cp]
  else [0xD800 + Z.shiftr (cp - 0x10000) 10;
        0xDC00 + Z.land (cp - 0x10000) 0x3FF].

Definition utf8_decode (bytes : list Z) : jsstring :=
  flat_map utf16_of_code_point (utf8_decode_loop bytes 0 0 0 0x80 0xBF).

(** ** Buffers *)

Abbreviation Buffer := (list Z).

(** [buf.length] *)
Definition blength (b : Buffer) : Z := Z.of_nat (length b).

(** [Buffer.from(array)]: every entry is truncated to a byte. *)
Definition Buffer_from (bytes : list Z) : Buffer :=
  map (fun b => Z.land b 255) bytes.

(** [Buffer.alloc(n)] *)
Definition Buffer_alloc (n : Z) : Buffer := replicate (Z.to_nat n) 0.

(** [buf[i] = v], the index being inside the buffer. *)
Definition store (buf : Buffer) (i v : Z) : Buffer :=
  <[Z.to_nat i := v mod 256]> buf.

(** [buf.writeInt32LE(value, offset)], returning the buffer it has
    written to: a value outside the 32-bit signed range and an offset
    that leaves no room for four bytes are range errors. *)
Definition writeInt32LE (buf : Buffer) (value offset : Z) : result Buffer :=
  if (value >? 0x7fffffff) || (value <? - 0x80000000) then
    Err (RangeError "ERR_OUT_OF_RANGE")
  else if (offset <? 0) || (blength buf <=? offset + 3) then
    Err (RangeError "ERR_BUFFER_OUT_OF_BOUNDS")
  else
    let buf := store buf offset value in
    let value := js_shru value 8 in
    let buf := store buf (offset + 1) value in
    let value := js_shru value 8 in
    let buf := store buf (offset + 2) value in
    let value := js_shru value 8 in
    let buf := store buf (offset + 3) value in
    Ok buf.

(** [buf.readInt32LE(offset)] *)
Definition readInt32LE (buf : Buffer) (offset : Z) : result Z :=
  if offset <? 0 then Err (RangeError "ERR_OUT_OF_RANGE") else
  let i := Z.to_nat offset in
  match buf !! i, buf !! (i + 1)%nat, buf !! (i + 2)%nat, buf !! (i + 3)%nat with
  | Some first, Some b1, Some b2, Some last =>
      Ok (first + b1 * 2 ^ 8 + b2 * 2 ^ 16 + js_shl last 24)
  | _, _, _, _ => Err (RangeError "ERR_OUT_OF_RANGE")
  end.

(** [source.copy(target, targetStart)], returning the target: the bytes
    of [source] overwrite those of [target] from [targetStart] on, as far
    as [target] reaches. *)
Definition Buffer_copy (source target : Buffer) (targetStart : Z) : Buffer :=
  list_inserts (Z.to_nat targetStart) source target.

(** [buf.toString('utf8', start, end)] *)
Definition Buffer_toString (buf : Buffer) (start end_ : Z) : jsstring :=
  let len := blength buf in
  if (0 <? start) && (len <=? start) then []
  else
    let start := if start <=? 0 then 0 else start in
    let end_ := if len <? end_ then len else end_ in
    if end_ <=? start then []
    else utf8_decode (take (Z.to_nat (end_ - start)) (drop (Z.to_nat start) buf)).

(** ** VarInt codec *)

(** The [do ... while (value !== 0)] loop of [varintEncode]; [bytes] is the
    array built so far, [fuel] the number of turns that the model allows
    it. *)
Fixpoint varintEncode_loop (fuel : nat) (value : Z) (bytes : list Z)
  : result (list Z) :=
  match fuel with
  | O => Err LoopBound
  | S fuel' =>
      let temp := js_and value 0x7F in
      let value := js_shru value 7 in
      let temp := if negb (value =? 0) then js_or temp 0x80 else temp in
      let bytes := bytes ++ [temp] in
      if negb (value =? 0) then varintEncode_loop fuel' value bytes
      else Ok bytes
  end.

(** The loop gets 32 turns, where a value of 32 bits takes five at
    most. *)
Definition varintEncode (value : Z) : result Buffer :=
  let value := if value <? 0 then js_shl 1 32 + value else value in
  let* bytes := varintEncode_loop 32 value [] in
  Ok (Buffer_from bytes).

(** The loop of [readVarInt], run over the bytes from [offset + position]
    on: an empty rest is the test [offset + position >= buffer.length]. *)
Fixpoint readVarInt_loop (rest : list Z) (value position : Z)
  : result (Z * Z) :=
  match rest with
  | [] => Err (Error "Incomplete data")
  | currentByte :: rest' =>
      let value := js_or value (js_shl (js_and currentByte 0x7F) (position * 7)) in
      let position := position + 1 in
      if position >? 5 then Err (Error "VarInt too big")
      else if negb (js_and currentByte 0x80 =? 0)
           then readVarInt_loop rest' value position
           else Ok (value, position)
  end.

(** Returns the pair [(value, size)]. *)
Definition readVarInt (buffer : Buffer) (offset : Z) : result (Z * Z) :=
  readVarInt_loop (drop (Z.to_nat offset) buffer) 0 0.

(** ** RCON packet codec *)

(** The object that [parseRconPacket] returns: [length], [id], [type]
    and [payload]. *)
Record RconPacket : Type := mkRconPacket {
  pkt_length : Z;
  pkt_id : Z;
  pkt_type : Z;
  pkt_payload : jsstring
}.

Definition createRconPacket (type id : Z) (payload : jsstring) : result Buffer :=
  let payloadBuffer := utf8_encode (payload ++ [0]) in
  let length := 4 + 4 + blength payloadBuffer in
  let packet := Buffer_alloc (4 + length) in
  let* packet := writeInt32LE packet length 0 in
  let* packet := writeInt32LE packet id 4 in
  let* packet := writeInt32LE packet type 8 in
  let packet := Buffer_copy payloadBuffer packet 12 in
  Ok packet.

Definition parseRconPacket (data : Buffer) : result RconPacket :=
  if blength data <? 12 then Err (Error "Invalid RCON packet (too short)") else
  let* length := readInt32LE data 0 in
  let* id := readInt32LE data 4 in
  let* type := readInt32LE data 8 in
  if blength data <? 4 + length then Err (Error "Incomplete RCON packet") else
  let payloadEnd := 4 + length - 2 in
  let payload := Buffer_toString data 12 payloadEnd in
  Ok (mkRconPacket length id type payload).

(** ** JavaScript values *)

(** What [JSON.parse] returns, and what the status session makes of it.
    An object is the list of its own properties in insertion order; an
    array may carry own properties besides its elements. *)
#[warnings="-register-all"]
Inductive value : Type :=
| VUndefined
| VNull
| VBool (b : bool)
| VNum (n : Z)
| VStr (s : jsstring)
| VArr (elems : list value) (props : list (jsstring * value))
| VObj (props : list (jsstring * value)).

Fixpoint lookup_prop (k : jsstring) (props : list (jsstring * value))
  : option value :=
  match props with
  | [] => None
  | (k', v) :: props' => if decide (k = k') then Some v else lookup_prop k props'
  end.

(** Assignment to a property: an existing one keeps its place. *)
Fixpoint set_prop (k : jsstring) (v : value) (props : list (jsstring * value))
  : list (jsstring * value) :=
  match props with
  | [] => [(k, v)]
  | (k', v') :: props' =>
      if decide (k = k') then (k, v) :: props' else (k', v') :: set_prop k v props'
  end.

(** [x.k], for a name [k] that no prototype defines ([players], [online],
    [sample], [name]).  The messages of the [TypeError]s are those of V8,
    the engine of Node.js. *)
Definition get (x : value) (k : jsstring) : result value :=
  match x with
  | VUndefined =>
      Err (TypeError ("Cannot read properties of undefined (reading '" +:+
                      text_of k +:+ "')"))
  | VNull =>
      Err (TypeError ("Cannot read properties of null (reading '" +:+
                      text_of k +:+ "')"))
  | VObj props | VArr _ props => Ok (default VUndefined (lookup_prop k props))
  | VBool _ | VNum _ | VStr _ => Ok VUndefined
  end.

(** [x?.k] *)
Definition get_opt (x : value) (k : jsstring) : result value :=
  match x with
  | VUndefined | VNull => Ok VUndefined
  | _ => get x k
  end.

(** [x.k = v] in strict code (the file is an ES module), returning the
    object assigned to; the messages are those of V8 again. *)
Definition set (x : value) (k : jsstring) (v : value) : result value :=
  let create (type text : string) :=
    Err (TypeError ("Cannot create property '" +:+ text_of k +:+ "' on " +:+
                    type +:+ " '" +:+ text +:+ "'")) in
  match x with
  | VUndefined =>
      Err (TypeError ("Cannot set properties of undefined (setting '" +:+
                      text_of k +:+ "')"))
  | VNull =>
      Err (TypeError ("Cannot set properties of null (setting '" +:+
                      text_of k +:+ "')"))
  | VObj props => Ok (VObj (set_prop k v props))
  | VArr elems props => Ok (VArr elems (set_prop k v props))
  | VBool b => create "boolean" (if b then "true" else "false")
  | VNum n => create "number" (toString10 n)
  | VStr s => create "string" (text_of s)
  end.

(** Truthiness *)
Definition ToBoolean (x : value) : bool :=
  match x with
  | VUndefined | VNull => false
  | VBool b => b
  | VNum n => negb (n =? 0)
  | VStr s => negb (bool_decide (s = []))
  | VArr _ _ | VObj _ => true
  end.

Fixpoint join_strings (sep : jsstring) (parts : list jsstring) : jsstring :=
  match parts with
  | [] => []
  | [s] => s
  | s :: parts' => s ++ sep ++ join_strings sep parts'
  end.

(** [String(x)].  An array is the join of its elements by a comma, an
    object is ["[object Object]"] unless an own [toString] property, which
    cannot be a function in parsed JSON, hides the inherited method. *)
Fixpoint ToString (x : value) : result jsstring :=
  match x with
  | VUndefined => Ok (js "undefined")
  | VNull => Ok (js "null")
  | VBool b => Ok (js (if b then "true" else "false"))
  | VNum n => Ok (js (toString10 n))
  | VStr s => Ok s
  | VArr elems _ =>
      let* parts :=
        (fix elements (l : list value) : result (list jsstring) :=
           match l with
           | [] => Ok []
           | e :: l' =>
               let* s := match e with
                         | VUndefined | VNull => Ok []
                         | _ => ToString e
                         end in
               let* parts := elements l' in
               Ok (s :: parts)
           end) elems in
      Ok (join_strings (js ",") parts)
  | VObj props =>
      match lookup_prop (js "toString") props with
      | Some _ => Err (TypeError "Cannot convert object to primitive value")
      | None => Ok (js "[object Object]")
      end
  end.

(** One element of [Array.prototype.join]. *)
Definition join_element (e : value) : result jsstring :=
  match e with
  | VUndefined | VNull => Ok []
  | _ => ToString e
  end.

(** [elems.join(sep)] *)
Definition Array_join (elems : list value) (sep : jsstring) : result jsstring :=
  let* parts := mapM join_element elems in
  Ok (join_strings sep parts).

(** [x.map(f)]: only an array has the method.  [callee] is the text of
    [x.map] at the call, which the engine puts into its message when
    what is called is not a function. *)
Definition Array_map (callee : string) (x : value) (f : value -> result value)
  : result (list value) :=
  match x with
  | VUndefined =>
      Err (TypeError "Cannot read properties of undefined (reading 'map')")
  | VNull => Err (TypeError "Cannot read properties of null (reading 'map')")
  | VArr elems _ => mapM f elems
  | VBool _ | VNum _ | VStr _ | VObj _ =>
      Err (TypeError (callee +:+ " is not a function"))
  end.

(** ** Promises, sockets and events *)

(** What a promise is settled with. *)
Inductive outcome (A : Type) : Type :=
| Resolved (a : A)
| Rejected (e : error).
Arguments Resolved {A} a.
Arguments Rejected {A} e.

Inductive socket_op : Type :=
| SockWrite (b : Buffer)
| SockEnd
| SockDestroy.

(** The events of a socket that the sessions listen to; [EvConnect] is
    the callback of [socket.connect]. *)
Inductive event : Type :=
| EvConnect
| EvData (chunk : Buffer)
| EvEnd
| EvClose
| EvTimeout
| EvError (err : error).

(** What a session shares with the outside: the calls made on its socket,
    in order; the state of the promise it returned ([None] while pending);
    and every call of [resolve] and [reject], in order.  Only the first
    such call settles a promise, the later ones have no effect on it. *)
Record io (A : Type) : Type := mkIo {
  socket : list socket_op;
  promise : option (outcome A);
  calls : list (outcome A)
}.
Arguments mkIo {A}.
Arguments socket {A}.
Arguments promise {A}.
Arguments calls {A}.

Definition io_init {A : Type} : io A := mkIo [] None [].

Definition sock {A : Type} (op : socket_op) (i : io A) : io A :=
  mkIo (socket i ++ [op]) (promise i) (calls i).

Definition settle {A : Type} (o : outcome A) (i : io A) : io A :=
  mkIo (socket i)
       (match promise i with None => Some o | Some first => Some first end)
       (calls i ++ [o]).

Definition resolve {A : Type} (a : A) : io A -> io A := settle (Resolved a).
Definition reject {A : Type} (e : error) : io A -> io A := settle (Rejected e).

(** ** Status packets *)

Definition createHandshakePacket (host : jsstring) (port : Z) : result Buffer :=
  let protocolVersion := -1 in
  let* protocolVersionBuffer := varintEncode protocolVersion in
  let* hostLengthBuffer := varintEncode (Z.of_nat (length host)) in
  let hostBuffer := utf8_encode host in
  let portBuffer := Buffer_from [js_and (js_shr port 8) 0xFF; js_and port 0xFF] in
  let* nextStateBuffer := varintEncode 1 in
  let payloadParts :=
    [protocolVersionBuffer; hostLengthBuffer; hostBuffer; portBuffer;
     nextStateBuffer] in
  let packetId := Buffer_from [0x00] in
  let packetBody := concat (packetId :: payloadParts) in
  let* packetLengthBuffer := varintEncode (blength packetBody) in
  let fullPacket := concat [packetLengthBuffer; packetBody] in
  Ok fullPacket.

Definition createStatusRequestPacket : result Buffer :=
  let packetId := Buffer_from [0x00] in
  let* packetLengthBuffer := varintEncode (blength packetId) in
  Ok (concat [packetLengthBuffer; packetId]).

Section Runtime.

(** [JSON.parse]: the value, or the message of the [SyntaxError]. *)
Variable JSON_parse : jsstring -> string + value.

(** Whether the number that a string converts to is greater than zero. *)
Variable StringToNumber_positive : jsstring -> bool.

(** [x > 0] *)
Definition gt_zero (x : value) : result bool :=
  match x with
  | VUndefined | VNull => Ok false
  | VBool b => Ok b
  | VNum n => Ok (n >? 0)
  | VStr s => Ok (StringToNumber_positive s)
  | VArr _ _ | VObj _ => let* s := ToString x in Ok (StringToNumber_positive s)
  end.

Definition parseStatusResponse (data : Buffer) : result value :=
  let offset := 0 in
  (* Read packet length *)
  let* packetLengthResult := readVarInt data offset in
  let packetLength := fst packetLengthResult in
  let offset := offset + snd packetLengthResult in
  if blength data <? offset + packetLength then Err (Error "Incomplete data") else
  (* Read packet ID *)
  let* packetIdResult := readVarInt data offset in
  let packetId := fst packetIdResult in
  let offset := offset + snd packetIdResult in
  if negb (packetId =? 0x00) then
    Err (Error ("Unexpected packet ID: 0x" +:+ toString16 packetId)) else
  (* Read JSON response length *)
  let* jsonLengthResult := readVarInt data offset in
  let jsonLength := fst jsonLengthResult in
  let offset := offset + snd jsonLengthResult in
  if blength data <? offset + jsonLength then Err (Error "Incomplete data") else
  (* Read JSON response *)
  let jsonStr := Buffer_toString data offset (offset + jsonLength) in
  match JSON_parse jsonStr with
  | inr response => Ok response
  | inl m => Err (Error ("Failed to parse server response: " +:+ m))
  end.

End Runtime.

(** ** Status session *)

Module getMinecraftServerStatus.

(** The variables that the handlers close over, and the outside. *)
Record State : Type := mkState {
  data : Buffer;
  hasReceivedResponse : bool;
  out : io value
}.

Definition init : State := mkState [] false io_init.

Definition with_out (f : io value -> io value) (s : State) : State :=
  mkState (data s) (hasReceivedResponse s) (f (out s)).

Section Handlers.

Variable JSON_parse : jsstring -> string + value.
Variable StringToNumber_positive : jsstring -> bool.
Variable host : jsstring.
Variable port : Z.

(** [socket.on('timeout', ...)] *)
Definition on_timeout (s : State) : State :=
  let s := with_out (sock SockDestroy) s in
  with_out (reject (Error "Connection timeout")) s.

(** [socket.on('error', ...)] *)
Definition on_error (err : error) (s : State) : State :=
  with_out (reject err) s.

(** The callback of [socket.connect]. *)
Definition on_connect (s : State) : State :=
  let catch err s :=
    let s := with_out (sock SockDestroy) s in
    with_out (reject err) s in
  match createHandshakePacket host port with
  | Err err => catch err s
  | Ok handshakePacket =>
      let s := with_out (sock (SockWrite handshakePacket)) s in
      match createStatusRequestPacket with
      | Err err => catch err s
      | Ok statusRequestPacket =>
          with_out (sock (SockWrite statusRequestPacket)) s
      end
  end.

(** The statements of the [data] handler between [socket.end()] and
    [resolve(result)]: they give the value that [resolve] receives, or
    throw. *)
Definition augment (result : value) : Js.result value :=
  let* result := set result (js "online") (VBool true) in
  let* condition :=
    let* players := get_opt result (js "players") in
    let* online := get_opt players (js "online") in
    if ToBoolean online then
      let* players := get result (js "players") in
      let* online := get players (js "online") in
      gt_zero StringToNumber_positive online
    else Ok false in
  if condition then
    let* players := get result (js "players") in
    let* sample := get players (js "sample") in
    let* names :=
      Array_map "result.players.sample.map" sample
        (fun player => get player (js "name")) in
    let* nicknames := Array_join names (js ", ") in
    (* the assignment changes the object that [result.players] is *)
    let* players := set players (js "nicknames") (VStr nicknames) in
    set result (js "players") players
  else Ok result.

(** [socket.on('data', ...)] *)
Definition on_data (chunk : Buffer) (s : State) : State :=
  let data := data s ++ chunk in
  let s := mkState data (hasReceivedResponse s) (out s) in
  let catch e s :=
    if String.eqb (message e) "Incomplete data" then s
    else
      let s := with_out (sock SockEnd) s in
      with_out (reject e) s in
  match parseStatusResponse JSON_parse data with
  | Err e => catch e s
  | Ok result =>
      let s := mkState data true (out s) in
      let s := with_out (sock SockEnd) s in
      match augment result with
      | Err e => catch e s
      | Ok result => with_out (resolve result) s
      end
  end.

(** [socket.on('end', ...)] *)
Definition on_end (s : State) : State :=
  if negb (hasReceivedResponse s) then
    with_out (reject (Error "Connection closed without valid response")) s
  else s.

(** [socket.on('close', ...)] *)
Definition on_close (s : State) : State :=
  if negb (hasReceivedResponse s) then
    with_out (reject (Error "Connection closed without valid response")) s
  else s.

Definition step (s : State) (ev : event) : State :=
  match ev with
  | EvConnect => on_connect s
  | EvData chunk => on_data chunk s
  | EvEnd => on_end s
  | EvClose => on_close s
  | EvTimeout => on_timeout s
  | EvError err => on_error err s
  end.

(** The session after the events [evs] have been delivered in order. *)
Definition run (evs : list event) : State := fold_left step evs init.

End Handlers.

End getMinecraftServerStatus.

(** ** RCON session *)

Module sendRconCommand.

(** The variables that the handlers close over, and the outside. *)
Record State : Type := mkState {
  authenticated : bool;
  responseData : jsstring;
  out : io jsstring
}.

Definition init : State := mkState false [] io_init.

Definition with_out (f : io jsstring -> io jsstring) (s : State) : State :=
  mkState (authenticated s) (responseData s) (f (out s)).

Section Handlers.

Variable password : jsstring.
Variable command : jsstring.

(** [socket.on('timeout', ...)] *)
Definition on_timeout (s : State) : State :=
  let s := with_out (sock SockDestroy) s in
  with_out (reject (Error "RCON connection timeout")) s.

(** [socket.on('error', ...)] *)
Definition on_error (err : error) (s : State) : State :=
  with_out (reject err) s.

(** The callback of [socket.connect].  It has no [try]: were the packet
    not built, nothing would be written. *)
Definition on_connect (s : State) : State :=
  match createRconPacket 0x03 0x123 password with
  | Ok authPacket => with_out (sock (SockWrite authPacket)) s
  | Err _ => s
  end.

(** [socket.on('data', ...)] *)
Definition on_data (data : Buffer) (s : State) : State :=
  let catch err s :=
    let s := with_out (sock SockDestroy) s in
    with_out (reject err) s in
  match parseRconPacket data with
  | Err err => catch err s
  | Ok packetInfo =>
      if negb (authenticated s) then
        if pkt_id packetInfo =? 0x123 then
          if negb (pkt_id packetInfo =? -1) then
            let s := mkState true (responseData s) (out s) in
            (* Now send the command *)
            match createRconPacket 0x02 0x456 command with
            | Err err => catch err s
            | Ok commandPacket => with_out (sock (SockWrite commandPacket)) s
            end
          else
            let s := with_out (sock SockDestroy) s in
            with_out
              (reject (Error "RCON authentication failed - incorrect password")) s
        else s
      else
        (* We're authenticated and this is a command response *)
        if pkt_id packetInfo =? 0x456 then
          let responseData := responseData s ++ pkt_payload packetInfo in
          let s := mkState (authenticated s) responseData (out s) in
          let s := with_out (sock SockEnd) s in
          with_out (resolve responseData) s
        else s
  end.

(** [socket.on('end', ...)] *)
Definition on_end (s : State) : State :=
  if negb (authenticated s) then
    with_out (reject (Error "RCON connection closed before authentication")) s
  else if bool_decide (responseData s = []) then
    with_out (reject (Error "RCON connection closed before receiving response")) s
  else s.

(** [socket.on('close', ...)] *)
Definition on_close (s : State) : State := s.

Definition step (s : State) (ev : event) : State :=
  match ev with
  | EvConnect => on_connect s
  | EvData chunk => on_data chunk s
  | EvEnd => on_end s
  | EvClose => on_close s
  | EvTimeout => on_timeout s
  | EvError err => on_error err s
  end.

(** The session after the events [evs] have been delivered in order. *)
Definition run (evs : list event) : State := fold_left step evs init.

End Handlers.

End sendRconCommand.

Module Status := getMinecraftServerStatus.
Module Rcon := sendRconCommand.

(** ** Definitions that follow the specification *)

(** The four bytes of a 32-bit integer in two's complement, least
    significant byte first. *)
Definition le32 (x : Z) : list Z :=
  [x mod 256; (x / 2 ^ 8) mod 256; (x / 2 ^ 16) mod 256; (x / 2 ^ 24) mod 256].

Definition is_int32 (x : Z) : Prop := - 2 ^ 31 <= x < 2 ^ 31.

Definition is_byte (b : Z) : Prop := 0 <= b < 256.

(** ** What a handler may do to the outside *)

(** [io_trace i i'] : [i'] comes from [i] by calls on the socket and
    calls of [resolve] and [reject], in some number and order. *)
Inductive io_trace {A : Type} : io A -> io A -> Prop :=
| io_trace_refl (i : io A) : io_trace i i
| io_trace_sock (op : socket_op) (i i' : io A) :
    io_trace (sock op i) i' -> io_trace i i'
| io_trace_settle (o : outcome A) (i i' : io A) :
    io_trace (settle o i) i' -> io_trace i i'.

(** The promise holds the outcome of the first call of [resolve] or
    [reject], if there was one. *)
Definition first_call_wins {A : Type} (i : io A) : Prop :=
  promise i = head (calls i).

(** An entry of [players.sample] that has the name [name]. *)
Definition has_name (player : value) (name : jsstring) : Prop :=
  exists props, player = VObj props /\ lookup_prop (js "name") props = Some (VStr name).

(** ** Well-formed strings *)

(** A string in which every surrogate is half of a pair, and every code
    unit is one (sixteen bits). *)
Fixpoint well_formed (s : jsstring) : bool :=
  match s with
  | [] => true
  | c :: rest =>
      if is_high_surrogate c then
        match rest with
        | d :: rest' => is_low_surrogate d && well_formed rest'
        | [] => false
        end
      else negb (is_low_surrogate c) && (0 <=? c) && (c <=? 0xFFFF)
           && well_formed rest
  end.

(** A character that UTF-8 encodes in one byte. *)
Definition is_ascii (c : Z) : Prop := 0 <= c < 0x80.

(** A Unicode scalar value: a code point that is not a surrogate. *)
Definition is_scalar (cp : Z) : Prop :=
  0 <= cp < 0x110000 /\ (cp < 0xD800 \/ 0xDFFF < cp).

(** ** Sample data *)

Module Sample.

(** A string literal of a JSON text, between its quotation marks. *)
Definition quoted (s : string) : jsstring := [34] ++ js s ++ [34].

(** [{"players":{"max":20,"online":2,"sample":[{"name":"Alice"},{"name":"Bob"}]}}] *)
Definition two_players_text : jsstring :=
  js "{" ++ quoted "players" ++ js ":{" ++ quoted "max" ++ js ":20," ++
  quoted "online" ++ js ":2," ++ quoted "sample" ++ js ":[{" ++
  quoted "name" ++ js ":" ++ quoted "Alice" ++ js "},{" ++
  quoted "name" ++ js ":" ++ quoted "Bob" ++ js "}]}}".

Definition two_players : value :=
  VObj [(js "players",
         VObj [(js "max", VNum 20); (js "online", VNum 2);
               (js "sample",
                VArr [VObj [(js "name", VStr (js "Alice"))];
                      VObj [(js "name", VStr (js "Bob"))]] [])])].

(** [{"players":{"max":20,"online":0}}] *)
Definition no_players_text : jsstring :=
  js "{" ++ quoted "players" ++ js ":{" ++ quoted "max" ++ js ":20," ++
  quoted "online" ++ js ":0}}".

Definition no_players : value :=
  VObj [(js "players", VObj [(js "max", VNum 20); (js "online", VNum 0)])].

(** [{"players":{"max":20,"online":2}}] *)
Definition no_sample_text : jsstring :=
  js "{" ++ quoted "players" ++ js ":{" ++ quoted "max" ++ js ":20," ++
  quoted "online" ++ js ":2}}".

Definition no_sample : value :=
  VObj [(js "players", VObj [(js "max", VNum 20); (js "online", VNum 2)])].

(** [JSON.parse] on the three texts; elsewhere a syntax error. *)
Definition JSON_parse (text : jsstring) : string + value :=
  if decide (text = two_players_text) then inr two_players
  else if decide (text = no_players_text) then inr no_players
  else if decide (text = no_sample_text) then inr no_sample
  else inl "Unexpected token".

(** No string of the samples is compared with zero. *)
Definition StringToNumber_positive (s : jsstring) : bool := false.

(** The status response packet that carries a JSON text of fewer than
    126 bytes: length, packet id 0, length of the text, text. *)
Definition response (text : jsstring) : Buffer :=
  let json := utf8_encode text in
  [blength json + 2; 0; blength json] ++ json.

End Sample.

(** ** The server's side, and what the sessions are observed by *)

(** A byte that announces another byte of a VarInt. *)
Definition continues (b : Z) : Prop := 128 <= b < 256.

(** The status response that carries a JSON text, as the protocol frames
    it: length of what follows, packet id 0, length of the text, text. *)
Definition status_response_packet (text : jsstring) : result Buffer :=
  let json := utf8_encode text in
  let* jsonLength := varintEncode (blength json) in
  let body := [0] ++ jsonLength ++ json in
  let* packetLength := varintEncode (blength body) in
  Ok (packetLength ++ body).

(** An RCON packet as the protocol has it, with two NUL bytes after the
    payload. *)
Definition rcon_server_packet (id type : Z) (payload : jsstring) : Buffer :=
  let body := utf8_encode payload ++ [0; 0] in
  le32 (4 + 4 + blength body) ++ le32 id ++ le32 type ++ body.

(** The buffers that a session has written to its socket, in order. *)
Definition writes (ops : list socket_op) : list Buffer :=
  flat_map (fun op => match op with SockWrite b => [b] | _ => [] end) ops.

(** The bytes that the [data] events of a sequence have delivered. *)
Definition received (evs : list event) : Buffer :=
  flat_map (fun ev => match ev with EvData chunk => chunk | _ => [] end) evs.

(** A value that has properties to assign to. *)
Definition is_object (x : value) : Prop :=
  match x with
  | VObj _ | VArr _ _ => True
  | _ => False
  end.

(** ** The say command *)

(** [sendRconSayCommand(host, password, message)]: the session of
    [sendRconCommand] with the command [`say ${message}`]. *)
Definition sendRconSayCommand (password message : jsstring) (evs : list event)
  : Rcon.State :=
  Rcon.run password (js "say " ++ message) evs.

(** * Properties *)

(** ** Bitwise operations as arithmetic *)

Section Bits.

Lemma testbit_small (a k n : Z) :
  0 <= a < 2 ^ k -> k <= n -> Z.testbit a n = false.
Proof.
  intros Ha Hn.
  destruct (Z.lt_ge_cases k 0) as [Hk|Hk].
  { rewrite Z.pow_neg_r in Ha; lia. }
  rewrite <- (Z.mod_small a (2 ^ k)) by lia.
  apply Z.mod_pow2_bits_high. lia.
Qed.

(** Bits that do not overlap add up. *)
Lemma lor_disjoint (a m k : Z) :
  0 <= k -> 0 <= a < 2 ^ k -> Z.lor a (m * 2 ^ k) = a + m * 2 ^ k.
Proof.
  intros Hk Ha. symmetry. apply Z.add_nocarry_lor.
  apply Z.bits_inj'. intros n Hn.
  rewrite Z.land_spec, Z.bits_0.
  destruct (Z.lt_ge_cases n k).
  - rewrite Z.mul_pow2_bits_low by lia. apply andb_false_r.
  - rewrite (testbit_small a k n) by lia. reflexivity.
Qed.

Lemma lor_disjoint_l (a m k : Z) :
  0 <= k -> 0 <= a < 2 ^ k -> Z.lor (m * 2 ^ k) a = m * 2 ^ k + a.
Proof. intros. rewrite Z.lor_comm, lor_disjoint; lia. Qed.

(** A number below [2 ^ k] has no bit [k]. *)
Lemma land_bit_small (g k : Z) :
  0 <= k -> 0 <= g < 2 ^ k -> Z.land g (2 ^ k) = 0.
Proof.
  intros Hk Hg. apply Z.bits_inj'. intros n Hn.
  rewrite Z.land_spec, Z.bits_0, Z.pow2_bits_eqb by assumption.
  destruct (Z.eqb_spec k n) as [<-|_]; [|apply andb_false_r].
  rewrite (testbit_small g k k) by lia. reflexivity.
Qed.

Lemma land_low (x k : Z) : 0 <= k -> Z.land x (2 ^ k - 1) = x mod 2 ^ k.
Proof.
  intros. replace (2 ^ k - 1) with (Z.ones k).
  - apply Z.land_ones. assumption.
  - rewrite Z.ones_equiv. lia.
Qed.

End Bits.

Ltac zlia := Z.div_mod_to_equations; lia.

(** ** The 32-bit conversions *)

Lemma ToUint32_small (x : Z) : 0 <= x < 2 ^ 32 -> ToUint32 x = x.
Proof. intros. unfold ToUint32. apply Z.mod_small. assumption. Qed.

Lemma ToInt32_small (x : Z) : - 2 ^ 31 <= x < 2 ^ 31 -> ToInt32 x = x.
Proof.
  intros. unfold ToInt32.
  change (2 ^ 32) with 4294967296 in *. change (2 ^ 31) with 2147483648 in *.
  destruct (Z.leb_spec 2147483648 (x mod 4294967296)); zlia.
Qed.

Lemma ToInt32_unsigned (x : Z) :
  0 <= x < 2 ^ 32 -> ToInt32 x = if x <? 2 ^ 31 then x else x - 2 ^ 32.
Proof.
  intros. unfold ToInt32. rewrite Z.mod_small by assumption.
  change (2 ^ 32) with 4294967296 in *. change (2 ^ 31) with 2147483648 in *.
  destruct (Z.leb_spec 2147483648 x), (Z.ltb_spec x 2147483648); lia.
Qed.

Lemma ToInt32_range (x : Z) : - 2 ^ 31 <= ToInt32 x < 2 ^ 31.
Proof.
  unfold ToInt32.
  change (2 ^ 32) with 4294967296 in *. change (2 ^ 31) with 2147483648 in *.
  destruct (Z.leb_spec 2147483648 (x mod 4294967296)); zlia.
Qed.

Lemma ToInt32_idem (x : Z) : ToInt32 (ToInt32 x) = ToInt32 x.
Proof. apply ToInt32_small, ToInt32_range. Qed.

(** ** VarInt codec *)

Lemma js_and_7F (x : Z) : 0 <= x < 2 ^ 32 -> js_and x 0x7F = x mod 128.
Proof.
  intros Hx. unfold js_and. rewrite (ToInt32_small 0x7F) by lia.
  change 0x7F with (2 ^ 7 - 1). rewrite land_low by lia.
  rewrite ToInt32_unsigned by assumption.
  change (2 ^ 32) with 4294967296 in *. change (2 ^ 31) with 2147483648 in *.
  change (2 ^ 7) with 128.
  destruct (Z.ltb_spec x 2147483648); zlia.
Qed.

Lemma js_and_80 (g : Z) :
  0 <= g < 128 -> js_and g 0x80 = 0 /\ js_and (g + 128) 0x80 = 128.
Proof.
  intros Hg. unfold js_and. rewrite !ToInt32_small by lia.
  assert (Hlow : Z.land g 128 = 0) by (apply (land_bit_small g 7); lia).
  split; [exact Hlow|].
  replace (g + 128) with (Z.lor g (1 * 2 ^ 7)) by (rewrite lor_disjoint; lia).
  change (1 * 2 ^ 7) with 128.
  rewrite Z.land_lor_distr_l, Z.land_diag, Hlow. reflexivity.
Qed.

Lemma js_shru_7 (x : Z) : 0 <= x < 2 ^ 32 -> js_shru x 7 = x / 128.
Proof.
  intros. unfold js_shru. rewrite ToUint32_small by assumption.
  change (ToUint32 7 mod 32) with 7. rewrite Z.shiftr_div_pow2 by lia.
  reflexivity.
Qed.

Lemma js_or_80 (g : Z) : 0 <= g < 128 -> js_or g 0x80 = g + 128.
Proof.
  intros. unfold js_or. rewrite !ToInt32_small by lia.
  change 0x80 with (1 * 2 ^ 7). rewrite lor_disjoint; lia.
Qed.

(** One turn of the encoder's loop, in arithmetic. *)
Lemma varintEncode_loop_step (fuel : nat) (v : Z) (bytes : list Z) :
  0 <= v < 2 ^ 32 ->
  varintEncode_loop (S fuel) v bytes =
    if v / 128 =? 0 then Ok (bytes ++ [v mod 128])
    else varintEncode_loop fuel (v / 128) (bytes ++ [v mod 128 + 128]).
Proof.
  intros Hv. cbn [varintEncode_loop].
  rewrite js_shru_7, js_and_7F by assumption.
  destruct (Z.eqb_spec (v / 128) 0); cbn [negb]; [reflexivity|].
  rewrite js_or_80 by zlia. reflexivity.
Qed.

(** One turn of the decoder's loop: the group [g] is put at bit
    [7 * pos] of the value, and the sum is read as a signed 32-bit
    integer. *)
Lemma readVarInt_step_value (acc g pos : Z) :
  0 <= pos <= 4 -> 0 <= g < 128 -> 0 <= acc < 2 ^ (7 * pos) ->
  acc + g * 2 ^ (7 * pos) < 2 ^ 32 ->
  js_or acc (js_shl g (pos * 7)) = ToInt32 (acc + g * 2 ^ (7 * pos)).
Proof.
  intros Hpos Hg Hacc Hsum.
  assert (Hcases : pos = 0 \/ pos = 1 \/ pos = 2 \/ pos = 3 \/ pos = 4) by lia.
  unfold js_or, js_shl. rewrite ToInt32_idem.
  rewrite (ToInt32_small g) by lia.
  destruct Hcases as [->|[->|[->|[->| ->]]]];
    match goal with
    | |- context [ToUint32 (?p * 7) mod 32] =>
        let k := eval vm_compute in (ToUint32 (p * 7) mod 32) in
        change (ToUint32 (p * 7) mod 32) with k;
        change (7 * p) with k in *
    end;
    rewrite Z.shiftl_mul_pow2 by lia.
  1-4: rewrite (ToInt32_small acc) by (cbn in *; lia);
       rewrite (ToInt32_small (g * _)) by (cbn in *; lia);
       rewrite lor_disjoint by (cbn in *; lia);
       rewrite ToInt32_small by (cbn in *; lia); reflexivity.
  rewrite (ToInt32_small acc) by (cbn in *; lia).
  change (2 ^ 28) with 268435456 in *. change (2 ^ 32) with 4294967296 in *.
  rewrite !ToInt32_unsigned by (change (2 ^ 32) with 4294967296; lia).
  change (2 ^ 31) with 2147483648. change (2 ^ 32) with 4294967296.
  destruct (Z.ltb_spec (g * 268435456) 2147483648),
           (Z.ltb_spec (acc + g * 268435456) 2147483648); try lia.
  - change 268435456 with (2 ^ 28). rewrite lor_disjoint; lia.
  - replace (g * 268435456 - 4294967296) with ((g - 16) * 2 ^ 28) by lia.
    rewrite lor_disjoint; lia.
Qed.

Lemma pos_cases (pos : Z) :
  0 <= pos <= 4 -> pos = 0 \/ pos = 1 \/ pos = 2 \/ pos = 3 \/ pos = 4.
Proof. lia. Qed.

(** The decoder on the last byte of an encoding. *)
Lemma readVarInt_loop_last (g acc pos : Z) :
  0 <= pos <= 4 -> 0 <= g < 128 -> 0 <= acc < 2 ^ (7 * pos) ->
  acc + g * 2 ^ (7 * pos) < 2 ^ 32 ->
  readVarInt_loop [g] acc pos = Ok (ToInt32 (acc + g * 2 ^ (7 * pos)), pos + 1).
Proof.
  intros Hpos Hg Hacc Hsum. cbn [readVarInt_loop].
  rewrite js_and_7F, Z.mod_small by lia.
  rewrite readVarInt_step_value by assumption.
  destruct (js_and_80 g Hg) as [-> _].
  destruct (Z.gtb_spec (pos + 1) 5); [lia|]. reflexivity.
Qed.

(** The decoder on a byte that announces another one. *)
Lemma readVarInt_loop_more (g acc pos : Z) (rest : list Z) :
  0 <= pos <= 3 -> 0 <= g < 128 -> 0 <= acc < 2 ^ (7 * pos) ->
  readVarInt_loop ((g + 128) :: rest) acc pos =
    readVarInt_loop rest (acc + g * 2 ^ (7 * pos)) (pos + 1).
Proof.
  intros Hpos Hg Hacc. cbn [readVarInt_loop].
  assert (Hsum : acc + g * 2 ^ (7 * pos) < 2 ^ 28).
  { destruct (pos_cases pos) as [->|[->|[->|[->| ->]]]]; cbn in *; lia. }
  rewrite js_and_7F by lia.
  replace ((g + 128) mod 128) with g by zlia.
  rewrite readVarInt_step_value by (cbn in *; lia).
  rewrite ToInt32_small
    by (destruct (pos_cases pos) as [->|[->|[->|[->| ->]]]]; cbn in *; lia).
  destruct (js_and_80 g Hg) as [_ ->].
  destruct (Z.gtb_spec (pos + 1) 5); [lia|]. reflexivity.
Qed.

(** The two loops, side by side: what the encoder emits for [v] takes
    the decoder from the value [acc] at position [pos] to the signed
    reading of [acc + v * 2 ^ (7 * pos)]. *)
Lemma varint_loops (n : nat) :
  forall (v acc pos : Z) (bytes : list Z) (fuel : nat),
    (S n <= fuel)%nat -> 0 <= pos -> pos + Z.of_nat (S n) <= 5 ->
    0 <= v < 2 ^ (7 * Z.of_nat (S n)) -> 0 <= acc < 2 ^ (7 * pos) ->
    acc + v * 2 ^ (7 * pos) < 2 ^ 32 ->
    exists out,
      varintEncode_loop fuel v bytes = Ok (bytes ++ out) /\
      Forall is_byte out /\ (1 <= length out <= S n)%nat /\
      readVarInt_loop out acc pos =
        Ok (ToInt32 (acc + v * 2 ^ (7 * pos)), pos + Z.of_nat (length out)).
Proof.
  induction n as [|n IH]; intros v acc pos bytes fuel Hfuel Hpos Hn Hv Hacc Hsum;
    (destruct fuel as [|fuel]; [lia|]);
    assert (Hv32 : 0 <= v < 2 ^ 32)
      by (destruct (pos_cases pos) as [->|[->|[->|[->| ->]]]];
          [lia|cbn in *; lia..]);
    rewrite varintEncode_loop_step by assumption;
    destruct (Z.eqb_spec (v / 128) 0) as [Hlast|Hmore].
  1, 3: exists [v mod 128]; replace (v mod 128) with v by zlia;
        (split; [reflexivity|]); (split; [repeat constructor; unfold is_byte; zlia|]);
        (split; [cbn [length]; lia|]);
        apply readVarInt_loop_last; [lia|zlia|assumption..].
  - (* one group holds all of [v] *)
    change (2 ^ (7 * Z.of_nat 1)) with 128 in Hv. zlia.
  - rewrite Nat2Z.inj_succ in Hv, Hn.
    replace (7 * Z.succ (Z.of_nat (S n))) with (7 + 7 * Z.of_nat (S n)) in Hv by lia.
    rewrite Z.pow_add_r in Hv by lia. change (2 ^ 7) with 128 in Hv.
    assert (Hpos3 : 0 <= pos <= 3) by lia.
    assert (Hpow : 2 ^ (7 * (pos + 1)) = 128 * 2 ^ (7 * pos)).
    { replace (7 * (pos + 1)) with (7 + 7 * pos) by lia.
      rewrite Z.pow_add_r by lia. reflexivity. }
    assert (Hp : 0 < 2 ^ (7 * pos)) by (apply Z.pow_pos_nonneg; lia).
    assert (Hg : 0 <= v mod 128 < 128) by zlia.
    assert (Hsplit : v = 128 * (v / 128) + v mod 128) by zlia.
    destruct (IH (v / 128) (acc + v mod 128 * 2 ^ (7 * pos)) (pos + 1)
                 (bytes ++ [v mod 128 + 128]) fuel)
        as (out & Henc & Hbytes & Hlen & Hdec).
    + lia.
    + lia.
    + lia.
    + zlia.
    + rewrite Hpow.
      destruct (pos_cases pos) as [->|[->|[->|[->| ->]]]]; cbn in *; lia.
    + rewrite Hpow. rewrite Hsplit in Hsum at 1.
      replace (acc + v mod 128 * 2 ^ (7 * pos) + v / 128 * (128 * 2 ^ (7 * pos)))
        with (acc + (128 * (v / 128) + v mod 128) * 2 ^ (7 * pos)) by ring.
      assumption.
    + exists ((v mod 128 + 128) :: out). split; [|split; [|split]].
      * rewrite Henc, <- app_assoc. reflexivity.
      * constructor; [unfold is_byte; lia|assumption].
      * cbn [length]. lia.
      * rewrite readVarInt_loop_more by assumption. rewrite Hdec.
        rewrite Hpow. f_equal. f_equal.
        -- f_equal. rewrite Hsplit at 3. ring.
        -- cbn [length]. lia.
Qed.

Lemma Buffer_from_bytes (bytes : list Z) :
  Forall is_byte bytes -> Buffer_from bytes = bytes.
Proof.
  unfold Buffer_from. induction 1 as [|b bytes Hb _ IH]; [reflexivity|].
  cbn [map]. rewrite IH. f_equal.
  change 255 with (2 ^ 8 - 1). rewrite land_low by lia.
  apply Z.mod_small. exact Hb.
Qed.

Lemma ToInt32_ToUint32 (x : Z) : ToInt32 (ToUint32 x) = ToInt32 x.
Proof. unfold ToInt32, ToUint32. rewrite Z.mod_mod by lia. reflexivity. Qed.

Lemma ToUint32_range (x : Z) : 0 <= ToUint32 x < 2 ^ 32.
Proof. unfold ToUint32. apply Z.mod_pos_bound. lia. Qed.

(** The loop sees its argument only through the unsigned conversion. *)
Lemma varintEncode_loop_ToUint32 (fuel : nat) (v : Z) (bytes : list Z) :
  varintEncode_loop fuel v bytes = varintEncode_loop fuel (ToUint32 v) bytes.
Proof.
  destruct fuel as [|fuel]; [reflexivity|]. cbn [varintEncode_loop].
  unfold js_and, js_shru.
  rewrite ToInt32_ToUint32, (ToUint32_small (ToUint32 v)) by apply ToUint32_range.
  reflexivity.
Qed.

(** [varintEncode] returns for every integer, with one to five bytes:
    the iteration budget of the model is never used up. *)
Theorem varintEncode_returns (value : Z) :
  exists bytes, varintEncode value = Ok bytes /\ (1 <= length bytes <= 5)%nat.
Proof.
  unfold varintEncode.
  set (v := if value <? 0 then js_shl 1 32 + value else value). clearbody v.
  rewrite varintEncode_loop_ToUint32.
  pose proof (ToUint32_range v) as Hu.
  destruct (varint_loops 4 (ToUint32 v) 0 0 [] 32)
    as (out & -> & Hbytes & Hlen & _);
    [lia|lia|lia|cbn; lia|cbn; lia|cbn; lia|].
  exists out. cbn [bind app]. rewrite Buffer_from_bytes by assumption.
  split; [reflexivity|assumption].
Qed.

(** [C3], at the value the claim names: the remapping constant [1 << 32]
    is [1], so that [-1] is encoded as the single byte of [0], whereas
    [0xFFFFFFFF] is encoded in five bytes. *)
Theorem varintEncode_minus_one :
  js_shl 1 32 = 1 /\
  varintEncode (-1) = Ok [0x00] /\
  varintEncode 0xFFFFFFFF = Ok [0xFF; 0xFF; 0xFF; 0xFF; 0x0F].
Proof. repeat split; reflexivity. Qed.

(** [C4], as stated, fails at [2 ^ 31]: the decoder returns the negative
    number [- 2 ^ 31]. *)
Lemma varint_roundtrip_unsigned_fails :
  ~ (forall v bytes, 0 <= v < 2 ^ 32 -> varintEncode v = Ok bytes ->
       readVarInt bytes 0 = Ok (v, blength bytes)).
Proof.
  intros H.
  specialize (H (2 ^ 31) [128; 128; 128; 128; 8]).
  assert (Hdec : readVarInt [128; 128; 128; 128; 8] 0 = Ok (- 2 ^ 31, 5))
    by reflexivity.
  rewrite H in Hdec; [discriminate Hdec|lia|reflexivity].
Qed.

(** [C4], amended: decoding the encoding of an unsigned 32-bit integer
    [v] at offset 0 gives the number of bytes of the encoding, and gives
    [v] read as a signed 32-bit integer: [v] itself below [2 ^ 31], and
    [v - 2 ^ 32] from there on. *)
Theorem varint_roundtrip (v : Z) :
  0 <= v < 2 ^ 32 ->
  exists bytes,
    varintEncode v = Ok bytes /\
    readVarInt bytes 0 =
      Ok (if v <? 2 ^ 31 then v else v - 2 ^ 32, blength bytes).
Proof.
  intros Hv. unfold varintEncode.
  destruct (Z.ltb_spec v 0); [lia|].
  destruct (varint_loops 4 v 0 0 [] 32) as (out & -> & Hbytes & _ & Hdec);
    [lia|lia|lia|cbn; lia|cbn; lia|cbn; lia|].
  exists out. cbn [bind app]. rewrite Buffer_from_bytes by assumption.
  split; [reflexivity|].
  unfold readVarInt. change (drop (Z.to_nat 0) out) with out. rewrite Hdec.
  rewrite <- ToInt32_unsigned by assumption.
  unfold blength. repeat f_equal. change (2 ^ (7 * 0)) with 1. lia.
Qed.

Lemma varint_roundtrip_witness :
  exists bytes,
    varintEncode 0xFFFFFFFF = Ok bytes /\
    readVarInt bytes 0 = Ok (-1, blength bytes).
Proof. apply (varint_roundtrip 0xFFFFFFFF). lia. Defined.

(** ** Buffers *)

Lemma store_app (pre post : list Z) (i : nat) (v : Z) :
  store (pre ++ post) (blength pre + Z.of_nat i) v = pre ++ <[i := v mod 256]> post.
Proof.
  unfold store, blength.
  replace (Z.to_nat (Z.of_nat (length pre) + Z.of_nat i)) with (length pre + i)%nat by lia.
  apply insert_app_r.
Qed.

Lemma js_shru_8 (x : Z) : js_shru x 8 = ToUint32 x / 256.
Proof.
  unfold js_shru. change (ToUint32 8 mod 32) with 8.
  rewrite Z.shiftr_div_pow2 by lia. reflexivity.
Qed.

(** Writing a 32-bit integer over four bytes puts [le32] in their place. *)
Lemma writeInt32LE_app (pre post : list Z) (a b c d v : Z) :
  is_int32 v ->
  writeInt32LE (pre ++ a :: b :: c :: d :: post) v (blength pre) =
    Ok (pre ++ le32 v ++ post).
Proof.
  unfold is_int32. change (2 ^ 31) with 2147483648. intros Hv.
  unfold writeInt32LE.
  destruct (Z.gtb_spec v 0x7fffffff); [lia|].
  destruct (Z.ltb_spec v (- 0x80000000)); [lia|]. cbn [orb].
  destruct (Z.ltb_spec (blength pre) 0); [unfold blength in *; lia|].
  destruct (Z.leb_spec (blength (pre ++ a :: b :: c :: d :: post)) (blength pre + 3)) as [Hlen|_].
  { unfold blength in Hlen. rewrite length_app in Hlen. cbn [length] in Hlen. lia. }
  cbn [orb]. rewrite !js_shru_8.
  rewrite <- (Z.add_0_r (blength pre)) at 1. change 0 with (Z.of_nat 0) at 1.
  rewrite store_app. cbn [insert list_insert].
  change 1 with (Z.of_nat 1) at 1. rewrite store_app. cbn [insert list_insert].
  change 2 with (Z.of_nat 2) at 1. rewrite store_app. cbn [insert list_insert].
  change 3 with (Z.of_nat 3) at 1. rewrite store_app. cbn [insert list_insert].
  unfold le32, ToUint32. cbn [app].
  change (2 ^ 32) with 4294967296. change (2 ^ 8) with 256.
  change (2 ^ 16) with 65536. change (2 ^ 24) with 16777216.
  do 2 f_equal.
  repeat (apply (f_equal2 cons); [try reflexivity; zlia|]). reflexivity.
Qed.

(** ** UTF-8 *)

(** Induction over a list two elements at a time, as [utf8_encode]
    recurses. *)
Lemma list_pair_ind {A : Type} (P : list A -> Prop) :
  P [] -> (forall a, P [a]) ->
  (forall a b l, P l -> P (b :: l) -> P (a :: b :: l)) ->
  forall l, P l.
Proof.
  intros Hnil Hone Hstep l.
  cut (P l /\ forall a, P (a :: l)); [tauto|].
  induction l as [|b l [IHl IHbl]]; split; auto.
Qed.

(** [utf8_encode] on a string of two characters or more. *)
Lemma utf8_encode_two (a b : Z) (l : jsstring) :
  utf8_encode (a :: b :: l) =
    if is_high_surrogate a then
      if is_low_surrogate b
      then utf8_of_code_point (pair_code_point a b) ++ utf8_encode l
      else utf8_of_code_point 0xFFFD ++ utf8_encode (b :: l)
    else if is_low_surrogate a
         then utf8_of_code_point 0xFFFD ++ utf8_encode (b :: l)
         else utf8_of_code_point a ++ utf8_encode (b :: l).
Proof. reflexivity. Qed.

(** The encoding of a string stops at any place that is not the middle
    of a surrogate pair. *)
Lemma utf8_encode_app (s t : jsstring) (c : Z) :
  is_low_surrogate c = false ->
  utf8_encode (s ++ c :: t) = utf8_encode s ++ utf8_encode (c :: t).
Proof.
  intros Hc. induction s as [|a|a b l IHl IHbl] using list_pair_ind.
  - reflexivity.
  - cbn [app]. cbn [utf8_encode]. rewrite Hc.
    destruct (is_high_surrogate a), (is_low_surrogate a);
      rewrite ?app_nil_r; reflexivity.
  - change ((a :: b :: l) ++ c :: t) with (a :: b :: (l ++ c :: t)).
    rewrite !utf8_encode_two.
    change (b :: l ++ c :: t) with ((b :: l) ++ c :: t).
    rewrite IHl, IHbl.
    destruct (is_high_surrogate a), (is_low_surrogate b), (is_low_surrogate a);
      rewrite app_assoc; reflexivity.
Qed.

(** The terminator that [createRconPacket] appends is encoded on its own. *)
Lemma utf8_encode_nul (payload : jsstring) :
  utf8_encode (payload ++ [0]) = utf8_encode payload ++ [0].
Proof. apply utf8_encode_app. reflexivity. Qed.

Lemma utf8_of_code_point_length (cp : Z) :
  (1 <= length (utf8_of_code_point cp) <= 4)%nat.
Proof.
  unfold utf8_of_code_point.
  destruct (cp <? 0x80), (cp <? 0x800), (cp <? 0x10000); cbn [length]; lia.
Qed.

(** No character takes more than four bytes. *)
Lemma utf8_encode_length (s : jsstring) :
  (length (utf8_encode s) <= 4 * length s)%nat.
Proof.
  induction s as [|a|a b l IHl IHbl] using list_pair_ind.
  - reflexivity.
  - cbn [utf8_encode].
    pose proof (utf8_of_code_point_length 0xFFFD).
    pose proof (utf8_of_code_point_length a).
    destruct (is_high_surrogate a), (is_low_surrogate a);
      rewrite ?length_app; cbn [length] in *; lia.
  - rewrite utf8_encode_two.
    pose proof (utf8_of_code_point_length 0xFFFD).
    pose proof (utf8_of_code_point_length a).
    pose proof (utf8_of_code_point_length (pair_code_point a b)).
    destruct (is_high_surrogate a), (is_low_surrogate b), (is_low_surrogate a);
      rewrite length_app; cbn [length] in *; lia.
Qed.

(** ** RCON packet codec *)

Lemma Buffer_alloc_app (n m : nat) :
  Buffer_alloc (Z.of_nat (n + m)) = replicate n 0 ++ replicate m 0.
Proof. unfold Buffer_alloc. rewrite Nat2Z.id. apply replicate_add. Qed.

Lemma createRconPacket_ok (type id : Z) (payload : jsstring) :
  is_int32 type -> is_int32 id ->
  is_int32 (4 + 4 + blength (utf8_encode payload ++ [0])) ->
  createRconPacket type id payload =
    Ok (le32 (4 + 4 + blength (utf8_encode payload ++ [0])) ++ le32 id ++
        le32 type ++ utf8_encode payload ++ [0]).
Proof.
  intros Htype Hid Hlength. unfold createRconPacket.
  rewrite utf8_encode_nul.
  set (payloadBuffer := utf8_encode payload ++ [0]) in *.
  set (length := 4 + 4 + blength payloadBuffer) in *.
  replace (4 + length) with (Z.of_nat (4 + (4 + (4 + List.length payloadBuffer))))
    by (unfold length, blength; lia).
  rewrite Buffer_alloc_app, !replicate_add. cbn [replicate app].
  change (writeInt32LE ?buf length 0) with (writeInt32LE ([] ++ buf) length (blength [])).
  rewrite writeInt32LE_app by assumption. cbn [bind]. rewrite app_nil_l.
  change (writeInt32LE (le32 length ++ ?buf) id 4)
    with (writeInt32LE (le32 length ++ buf) id (blength (le32 length))).
  rewrite writeInt32LE_app by assumption. cbn [bind].
  change (le32 length ++ le32 id ++ ?buf)
    with ((le32 length ++ le32 id) ++ buf).
  change (writeInt32LE ?buf type 8)
    with (writeInt32LE buf type (blength (le32 length ++ le32 id))).
  rewrite writeInt32LE_app by assumption. cbn [bind].
  f_equal. unfold Buffer_copy.
  change (Z.to_nat 12) with (List.length ((le32 length ++ le32 id) ++ le32 type) + 0)%nat.
  rewrite app_assoc, list_inserts_app_r.
  rewrite <- (app_nil_r (replicate _ 0)).
  rewrite list_inserts_0_r by (rewrite length_replicate; reflexivity).
  rewrite app_nil_r. reflexivity.
Qed.

Lemma writeInt32LE_range (buf : Buffer) (v offset : Z) :
  ~ is_int32 v -> writeInt32LE buf v offset = Err (RangeError "ERR_OUT_OF_RANGE").
Proof.
  unfold is_int32, writeInt32LE. change (2 ^ 31) with 2147483648. intros Hv.
  destruct (Z.gtb_spec v 0x7fffffff); [reflexivity|].
  destruct (Z.ltb_spec v (- 0x80000000)); [reflexivity|]. lia.
Qed.

(** No packet is built when the length, the request id or the type is
    not a 32-bit signed integer: [writeInt32LE] throws. *)
Lemma createRconPacket_out_of_range (type id : Z) (payload : jsstring) :
  ~ (is_int32 (4 + 4 + blength (utf8_encode payload ++ [0])) /\
     is_int32 id /\ is_int32 type) ->
  createRconPacket type id payload = Err (RangeError "ERR_OUT_OF_RANGE").
Proof.
  intros Hrange. unfold createRconPacket.
  rewrite utf8_encode_nul.
  set (payloadBuffer := utf8_encode payload ++ [0]) in *.
  set (length := 4 + 4 + blength payloadBuffer) in *.
  assert (Hdec : forall x, is_int32 x \/ ~ is_int32 x) by (unfold is_int32; lia).
  destruct (Hdec length) as [Hlength|Hlength];
    [|rewrite writeInt32LE_range by assumption; reflexivity].
  replace (4 + length) with (Z.of_nat (4 + (4 + (4 + List.length payloadBuffer))))
    by (unfold length, blength; lia).
  rewrite Buffer_alloc_app, !replicate_add. cbn [replicate app].
  change (writeInt32LE ?buf length 0) with (writeInt32LE ([] ++ buf) length (blength [])).
  rewrite writeInt32LE_app by assumption. cbn [bind]. rewrite app_nil_l.
  destruct (Hdec id) as [Hid|Hid];
    [|rewrite writeInt32LE_range by assumption; reflexivity].
  change (writeInt32LE (le32 length ++ ?buf) id 4)
    with (writeInt32LE (le32 length ++ buf) id (blength (le32 length))).
  rewrite writeInt32LE_app by assumption. cbn [bind].
  destruct (Hdec type) as [Htype|Htype]; [tauto|].
  rewrite writeInt32LE_range by assumption. reflexivity.
Qed.

Lemma js_shl_24 (b : Z) :
  0 <= b < 256 ->
  js_shl b 24 = if b <? 128 then b * 2 ^ 24 else b * 2 ^ 24 - 2 ^ 32.
Proof.
  intros Hb. unfold js_shl. rewrite (ToInt32_small b) by lia.
  change (ToUint32 24 mod 32) with 24. rewrite Z.shiftl_mul_pow2 by lia.
  rewrite ToInt32_unsigned by lia.
  destruct (Z.ltb_spec (b * 2 ^ 24) (2 ^ 31)), (Z.ltb_spec b 128); lia.
Qed.

Lemma lookup_app_plus {A : Type} (l1 l2 : list A) (i : nat) :
  (l1 ++ l2) !! (length l1 + i)%nat = l2 !! i.
Proof.
  rewrite lookup_app_r by lia. f_equal. lia.
Qed.

(** Reading back the four bytes of [le32] gives the integer. *)
Lemma readInt32LE_app (pre post : list Z) (v : Z) :
  is_int32 v -> readInt32LE (pre ++ le32 v ++ post) (blength pre) = Ok v.
Proof.
  unfold is_int32. change (2 ^ 31) with 2147483648. intros Hv.
  unfold readInt32LE, blength.
  destruct (Z.ltb_spec (Z.of_nat (length pre)) 0); [lia|].
  rewrite Nat2Z.id.
  rewrite <- (Nat.add_0_r (length pre)) at 1.
  rewrite !lookup_app_plus. cbn [le32 app lookup list_lookup].
  rewrite js_shl_24 by zlia.
  change (2 ^ 8) with 256. change (2 ^ 16) with 65536.
  change (2 ^ 24) with 16777216. change (2 ^ 32) with 4294967296.
  f_equal.
  destruct (Z.ltb_spec (v / 16777216 mod 256) 128); zlia.
Qed.

(** The length field fits in 32 bits for every string that the engine
    can hold: V8 has no string of more than [2 ^ 29 - 24] code units. *)
Lemma payload_length_int32 (payload : jsstring) :
  Z.of_nat (length payload) <= 2 ^ 29 - 24 ->
  is_int32 (4 + 4 + blength (utf8_encode payload ++ [0])).
Proof.
  intros Hlen. unfold is_int32, blength. rewrite length_app. cbn [length].
  pose proof (utf8_encode_length payload).
  change (2 ^ 29) with 536870912 in Hlen. change (2 ^ 31) with 2147483648.
  lia.
Qed.

(** [C8]: the packet that [createRconPacket] builds.  Its length field
    is [4 + 4 + len (utf8 payload ++ NUL)], its size is [4 + length], and
    it is the three 32-bit little-endian integers [length], [id], [type]
    followed by the bytes of the payload and of the terminator.  The type
    and the request id are 32-bit signed integers, as the packet's fields
    are, and the length is one too. *)
Theorem createRconPacket_layout (type id : Z) (payload : jsstring) :
  is_int32 type -> is_int32 id ->
  is_int32 (4 + 4 + blength (utf8_encode payload ++ [0])) ->
  exists packet length,
    createRconPacket type id payload = Ok packet /\
    length = 4 + 4 + blength (utf8_encode payload ++ [0]) /\
    blength packet = 4 + length /\
    packet = le32 length ++ le32 id ++ le32 type ++ utf8_encode payload ++ [0] /\
    readInt32LE packet 0 = Ok length /\
    readInt32LE packet 4 = Ok id /\
    readInt32LE packet 8 = Ok type.
Proof.
  intros Htype Hid Hlength.
  eexists _, _. split; [apply createRconPacket_ok; assumption|].
  split; [reflexivity|].
  set (length := 4 + 4 + blength (utf8_encode payload ++ [0])) in *.
  split; [|split; [reflexivity|split; [|split]]].
  - unfold length, blength. rewrite !length_app. cbn [List.length le32]. lia.
  - apply (readInt32LE_app [] _ length Hlength).
  - apply (readInt32LE_app (le32 length) _ id Hid).
  - rewrite !app_assoc, <- (app_assoc _ (utf8_encode payload)).
    apply (readInt32LE_app (le32 length ++ le32 id) _ type Htype).
Qed.

Lemma createRconPacket_layout_witness :
  is_int32 0x03 /\ is_int32 0x123 /\
  exists packet length,
    createRconPacket 0x03 0x123 (js "pw") = Ok packet /\
    length = 4 + 4 + blength (utf8_encode (js "pw") ++ [0]) /\
    blength packet = 4 + length /\
    packet = le32 length ++ le32 0x123 ++ le32 0x03 ++ utf8_encode (js "pw") ++ [0] /\
    readInt32LE packet 0 = Ok length /\
    readInt32LE packet 4 = Ok 0x123 /\
    readInt32LE packet 8 = Ok 0x03.
Proof.
  split; [unfold is_int32; lia|]. split; [unfold is_int32; lia|].
  apply (createRconPacket_layout 0x03 0x123 (js "pw"));
    [unfold is_int32; lia..|change (is_int32 11); unfold is_int32; lia].
Defined.

(** What [parseRconPacket] makes of a packet with one terminator byte:
    the payload is decoded without its last byte. *)
Lemma parseRconPacket_one_terminator (type id : Z) (bytes : list Z) :
  is_int32 type -> is_int32 id ->
  is_int32 (4 + 4 + blength (bytes ++ [0])) ->
  parseRconPacket
    (le32 (4 + 4 + blength (bytes ++ [0])) ++ le32 id ++ le32 type ++ bytes ++ [0]) =
  Ok (mkRconPacket (4 + 4 + blength (bytes ++ [0])) id type
        (utf8_decode (removelast bytes))).
Proof.
  intros Htype Hid Hlength.
  set (length := 4 + 4 + blength (bytes ++ [0])) in *.
  assert (Hlen : length = 9 + Z.of_nat (List.length bytes)).
  { unfold length, blength. rewrite length_app. cbn [List.length]. lia. }
  unfold parseRconPacket.
  set (data := le32 length ++ le32 id ++ le32 type ++ bytes ++ [0]).
  assert (Hdata : blength data = 13 + Z.of_nat (List.length bytes)).
  { unfold data, blength. rewrite !length_app. cbn [List.length le32]. lia. }
  destruct (Z.ltb_spec (blength data) 12); [lia|].
  replace (readInt32LE data 0) with (Ok length)
    by (symmetry; apply (readInt32LE_app [] _ length Hlength)).
  replace (readInt32LE data 4) with (Ok id)
    by (symmetry; apply (readInt32LE_app (le32 length) _ id Hid)).
  replace (readInt32LE data 8) with (Ok type).
  2:{ symmetry. unfold data. rewrite !app_assoc, <- (app_assoc _ bytes).
      apply (readInt32LE_app (le32 length ++ le32 id) _ type Htype). }
  cbn [bind].
  destruct (Z.ltb_spec (blength data) (4 + length)); [lia|].
  do 2 f_equal. unfold Buffer_toString.
  destruct (Z.leb_spec (blength data) 12); [lia|]. cbn [andb Z.ltb Z.leb Z.compare].
  destruct (Z.ltb_spec (blength data) (4 + length - 2)); [lia|].
  rewrite removelast_firstn_len.
  destruct (Z.leb_spec (4 + length - 2) 12) as [Hshort|Hlong].
  - destruct bytes as [|b0 [|b1 bytes]]; [reflexivity..|].
    cbn [List.length] in Hlen. lia.
  - f_equal. unfold data. change (Z.to_nat 12) with (12 + 0)%nat.
    rewrite !app_assoc, <- (app_assoc _ bytes).
    change 12%nat with (List.length ((le32 length ++ le32 id) ++ le32 type)).
    rewrite drop_app_add, drop_0.
    replace (Z.to_nat (4 + length - 2 - 12)) with (Nat.pred (List.length bytes)) by lia.
    rewrite take_app_le by lia. reflexivity.
Qed.

(** ** RCON session *)

(** [C1], at a packet that carries the id [-1]: the test for [-1] is
    nested under the test for the id [0x123], so that the handler does
    nothing with it.  The packet is the answer of a server to a wrong
    password (length 10, id -1, type 2, empty payload); a session that
    awaits authentication is left as it was, its promise pending, and
    both event sequences below end in the same state. *)
Theorem rcon_auth_failure_ignored (password command : jsstring)
    (responseData : jsstring) (i : io jsstring) :
  let chunk := [10; 0; 0; 0; 255; 255; 255; 255; 2; 0; 0; 0; 0; 0] in
  parseRconPacket chunk = Ok (mkRconPacket 10 (-1) 2 []) /\
  Rcon.on_data command chunk (Rcon.mkState false responseData i) =
    Rcon.mkState false responseData i /\
  Rcon.run password command [EvConnect; EvData chunk] =
    Rcon.run password command [EvConnect] /\
  promise (Rcon.out (Rcon.run password command [EvConnect; EvData chunk])) = None /\
  calls (Rcon.out (Rcon.run password command [EvConnect; EvData chunk])) = [].
Proof.
  cbv zeta. split; [reflexivity|]. split; [reflexivity|].
  unfold Rcon.run. cbn [fold_left Rcon.step].
  unfold Rcon.on_connect.
  destruct (createRconPacket 3 291 password); repeat split; reflexivity.
Qed.

(** The same for every chunk that holds a packet with the id [-1]. *)
Lemma rcon_on_data_minus_one (command : jsstring) (data : Buffer)
    (packetInfo : RconPacket) (responseData : jsstring) (i : io jsstring) :
  parseRconPacket data = Ok packetInfo -> pkt_id packetInfo = -1 ->
  Rcon.on_data command data (Rcon.mkState false responseData i) =
    Rcon.mkState false responseData i.
Proof.
  intros Hparse Hid. unfold Rcon.on_data. rewrite Hparse, Hid. reflexivity.
Qed.

(** A session that has seen the packet with the id [-1] still awaits the
    answer to its authentication request, and sends the command when a
    packet with the id [0x123] comes. *)
Example rcon_command_after_auth_failure :
  let failed := [10; 0; 0; 0; 255; 255; 255; 255; 2; 0; 0; 0; 0; 0] in
  let granted := [10; 0; 0; 0; 0x23; 0x01; 0; 0; 2; 0; 0; 0; 0; 0] in
  socket (Rcon.out (Rcon.run (js "pw") (js "list")
                      [EvConnect; EvData failed; EvData granted])) =
  [SockWrite [11; 0; 0; 0; 0x23; 0x01; 0; 0; 3; 0; 0; 0; 112; 119; 0];
   SockWrite [13; 0; 0; 0; 0x56; 0x04; 0; 0; 2; 0; 0; 0; 108; 105; 115; 116; 0]].
Proof. reflexivity. Qed.

(** The exchange that succeeds, with a server that ends its packets by
    two NUL bytes. *)
Example rcon_success :
  let granted := [10; 0; 0; 0; 0x23; 0x01; 0; 0; 2; 0; 0; 0; 0; 0] in
  let answer := [12; 0; 0; 0; 0x56; 0x04; 0; 0; 0; 0; 0; 0; 79; 75; 0; 0] in
  let s := Rcon.run (js "pw") (js "list") [EvConnect; EvData granted; EvData answer] in
  promise (Rcon.out s) = Some (Resolved (js "OK")) /\
  last (socket (Rcon.out s)) = Some SockEnd.
Proof. split; reflexivity. Qed.

(** [C2], as stated, fails at a chunk of four bytes, which is shorter
    than the header: the session that receives it does not wait, its
    promise is rejected. *)
Lemma rcon_short_chunk_not_waiting :
  ~ (forall (command : jsstring) (chunk : Buffer) (s : Rcon.State),
       blength chunk < 12 \/
       (exists length, readInt32LE chunk 0 = Ok length /\ blength chunk < 4 + length) ->
       promise (Rcon.out (Rcon.on_data command chunk s)) = promise (Rcon.out s)).
Proof.
  intros H.
  specialize (H (js "list") [10; 0; 0; 0] Rcon.init).
  discriminate H. left. unfold blength. cbn. lia.
Qed.

(** [C2], amended: an inbound chunk that is shorter than the header of
    twelve bytes ends the RCON session.  The parser refuses it as a
    packet that is too short, the handler destroys the socket, and the
    promise, if it was pending, is rejected with the parser's error. *)
Theorem rcon_short_chunk_rejects (command : jsstring) (chunk : Buffer)
    (s : Rcon.State) :
  blength chunk < 12 ->
  promise (Rcon.out s) = None ->
  parseRconPacket chunk = Err (Error "Invalid RCON packet (too short)") /\
  promise (Rcon.out (Rcon.on_data command chunk s)) =
    Some (Rejected (Error "Invalid RCON packet (too short)")) /\
  socket (Rcon.out (Rcon.on_data command chunk s)) =
    socket (Rcon.out s) ++ [SockDestroy].
Proof.
  intros Hshort Hpending.
  assert (Hparse : parseRconPacket chunk =
                   Err (Error "Invalid RCON packet (too short)")).
  { unfold parseRconPacket. destruct (Z.ltb_spec (blength chunk) 12); [reflexivity|lia]. }
  split; [exact Hparse|].
  unfold Rcon.on_data. rewrite Hparse. cbn. rewrite Hpending. split; reflexivity.
Qed.

Lemma rcon_short_chunk_rejects_witness :
  promise (Rcon.out (Rcon.on_data (js "list") [10; 0; 0; 0] Rcon.init)) =
    Some (Rejected (Error "Invalid RCON packet (too short)")).
Proof.
  apply (rcon_short_chunk_rejects (js "list") [10; 0; 0; 0] Rcon.init);
    [unfold blength; cbn; lia|reflexivity].
Defined.

(** The first twelve bytes of a packet of fourteen: the handler parses
    the chunk alone, and the exception that the parser has for an
    incomplete packet closes the socket and rejects the promise as every
    other does. *)
Example rcon_incomplete_chunk_rejects :
  let chunk := [10; 0; 0; 0; 0x23; 0x01; 0; 0; 2; 0; 0; 0] in
  let s := Rcon.run (js "pw") (js "list") [EvConnect; EvData chunk] in
  parseRconPacket chunk = Err (Error "Incomplete RCON packet") /\
  promise (Rcon.out s) = Some (Rejected (Error "Incomplete RCON packet")) /\
  last (socket (Rcon.out s)) = Some SockDestroy.
Proof. repeat split; reflexivity. Qed.

(** The status session, for its part, waits when its parser reports
    incomplete data. *)
Example status_incomplete_chunk_waits :
  let s := Status.run Sample.JSON_parse Sample.StringToNumber_positive
             (js "localhost") 25565 [EvConnect; EvData [3; 0]] in
  parseStatusResponse Sample.JSON_parse [3; 0] = Err (Error "Incomplete data") /\
  promise (Status.out s) = None /\ calls (Status.out s) = [] /\
  Status.data s = [3; 0].
Proof. repeat split; reflexivity. Qed.

(** ** Promises: only the first call counts *)

Section Io.

Context {A : Type}.

Lemma io_trace_trans (i1 i2 i3 : io A) :
  io_trace i1 i2 -> io_trace i2 i3 -> io_trace i1 i3.
Proof.
  induction 1 as [i|op i i' _ IH|o i i' _ IH]; intros H23.
  - exact H23.
  - apply (io_trace_sock op), IH, H23.
  - apply (io_trace_settle o), IH, H23.
Qed.

Lemma io_trace_then_sock (op : socket_op) (i i' : io A) :
  io_trace i i' -> io_trace i (sock op i').
Proof.
  intros H. apply (io_trace_trans _ _ _ H), (io_trace_sock op), io_trace_refl.
Qed.

Lemma io_trace_then_settle (o : outcome A) (i i' : io A) :
  io_trace i i' -> io_trace i (settle o i').
Proof.
  intros H. apply (io_trace_trans _ _ _ H), (io_trace_settle o), io_trace_refl.
Qed.

Lemma first_call_wins_settle (o : outcome A) (i : io A) :
  first_call_wins i -> first_call_wins (settle o i).
Proof.
  unfold first_call_wins, settle. destruct i as [sk [first|] [|c cs]]; cbn;
    intros H; try discriminate H; try reflexivity; exact H.
Qed.

(** Along a trace the calls made so far stay, the first of them with
    the promise. *)
Lemma io_trace_calls (i i' : io A) :
  io_trace i i' ->
  (first_call_wins i -> first_call_wins i') /\
  exists later, calls i' = calls i ++ later.
Proof.
  induction 1 as [i|op i i' _ [IHw [later IHc]]|o i i' _ [IHw [later IHc]]].
  - split; [auto|]. exists []. rewrite app_nil_r. reflexivity.
  - split; [exact IHw|]. exists later. exact IHc.
  - split; [intros Hi; apply IHw, first_call_wins_settle, Hi|].
    exists (o :: later). rewrite IHc. cbn [settle calls].
    rewrite <- app_assoc. reflexivity.
Qed.

End Io.

Create HintDb io.
#[local] Hint Resolve io_trace_refl io_trace_then_sock io_trace_then_settle : io.

(** Follows a handler through its branches. *)
Ltac io_step :=
  repeat match goal with
         | |- context [match ?x with _ => _ end] => destruct x
         end;
  cbn; unfold reject, resolve; auto 10 with io.

(** Every handler of the status session acts on the outside by socket
    calls and by [resolve] and [reject] only. *)
Lemma status_step_trace JSON_parse S2N host port (s : Status.State) (ev : event) :
  io_trace (Status.out s) (Status.out (Status.step JSON_parse S2N host port s ev)).
Proof.
  destruct ev; cbn [Status.step];
    unfold Status.on_connect, Status.on_data, Status.on_end, Status.on_close,
      Status.on_timeout, Status.on_error, Status.with_out;
    io_step.
Qed.

Lemma rcon_step_trace password command (s : Rcon.State) (ev : event) :
  io_trace (Rcon.out s) (Rcon.out (Rcon.step password command s ev)).
Proof.
  destruct ev; cbn [Rcon.step];
    unfold Rcon.on_connect, Rcon.on_data, Rcon.on_end, Rcon.on_close,
      Rcon.on_timeout, Rcon.on_error, Rcon.with_out;
    io_step.
Qed.

Lemma fold_left_trace {S E A : Type} (step : S -> E -> S) (proj : S -> io A) :
  (forall s ev, io_trace (proj s) (proj (step s ev))) ->
  forall evs s, io_trace (proj s) (proj (fold_left step evs s)).
Proof.
  intros Hstep evs. induction evs as [|ev evs IH]; intros s; cbn [fold_left].
  - apply io_trace_refl.
  - eapply io_trace_trans; [apply Hstep|apply IH].
Qed.

(** [C5], as stated, fails: when the time-out has destroyed the socket
    and the socket then reports that it is closed, the status session has
    called [reject] twice. *)
Lemma status_session_rejects_twice :
  ~ (forall evs : list event,
       (length (calls (Status.out
          (Status.run (fun _ => inl "") (fun _ => false) (js "localhost") 25565 evs)))
        <= 1)%nat).
Proof.
  intros H. specialize (H [EvConnect; EvTimeout; EvClose]).
  vm_compute in H. lia.
Qed.


Example status_timeout_then_close :
  calls (Status.out
    (Status.run (fun _ => inl "") (fun _ => false) (js "localhost") 25565
       [EvConnect; EvTimeout; EvClose])) =
  [Rejected (Error "Connection timeout");
   Rejected (Error "Connection closed without valid response")].
Proof. reflexivity. Qed.

(** A session that no terminal event has reached is pending. *)
Example rcon_pending :
  promise (Rcon.out (Rcon.run (js "pw") (js "list") [EvConnect; EvClose])) = None.
Proof. reflexivity. Qed.

Lemma first_call_stable {A : Type} (i i' : io A) (o : outcome A) :
  first_call_wins i -> io_trace i i' -> promise i = Some o -> promise i' = Some o.
Proof.
  intros Hi Htrace Ho.
  destruct (io_trace_calls i i' Htrace) as [Hw [later Hc]].
  rewrite (Hw Hi), Hc. rewrite Hi in Ho.
  destruct (calls i) as [|c cs]; [discriminate Ho|exact Ho].
Qed.

Lemma fold_left_app_trace {S E A : Type} (step : S -> E -> S) (proj : S -> io A)
    (init : S) (evs evs' : list E) :
  (forall s ev, io_trace (proj s) (proj (step s ev))) ->
  io_trace (proj (fold_left step evs init)) (proj (fold_left step (evs ++ evs') init)).
Proof.
  intros Hstep. rewrite fold_left_app. apply fold_left_trace, Hstep.
Qed.

(** ** Status response *)

(** [C7]: when the accumulated buffer holds a complete outer packet, as
    many bytes after the length field as the field says, and the
    packet's id decodes to a value other than 0, [parseStatusResponse]
    throws the error of an unexpected packet id and returns no status. *)
Theorem parseStatusResponse_unexpected_id JSON_parse (data : Buffer)
    (packetLength size packetId size' : Z) :
  readVarInt data 0 = Ok (packetLength, size) ->
  size + packetLength <= blength data ->
  readVarInt data size = Ok (packetId, size') ->
  packetId <> 0 ->
  parseStatusResponse JSON_parse data =
    Err (Error ("Unexpected packet ID: 0x" +:+ toString16 packetId)).
Proof.
  intros Hlength Hcomplete Hid Hne. unfold parseStatusResponse.
  rewrite Hlength. cbn [bind fst snd]. rewrite Z.add_0_l.
  destruct (Z.ltb_spec (blength data) (size + packetLength)); [lia|].
  rewrite Hid. cbn [bind fst snd].
  destruct (Z.eqb_spec packetId 0); [contradiction|]. reflexivity.
Qed.

Lemma parseStatusResponse_unexpected_id_witness :
  parseStatusResponse (fun _ => inr VNull) [3; 1; 1; 48] =
    Err (Error "Unexpected packet ID: 0x1").
Proof.
  apply (parseStatusResponse_unexpected_id (fun _ => inr VNull) [3; 1; 1; 48] 3 1 1 1);
    [reflexivity|unfold blength; cbn; lia|reflexivity|lia].
Defined.

Lemma lookup_prop_set_prop_ne (k k' : jsstring) (v : value) props :
  k <> k' -> lookup_prop k (set_prop k' v props) = lookup_prop k props.
Proof.
  intros Hne. induction props as [|[k0 v0] props IH]; cbn.
  - destruct (decide (k = k')); [contradiction|reflexivity].
  - destruct (decide (k' = k0)) as [->|Hk0]; cbn.
    + destruct (decide (k = k0)); [contradiction|reflexivity].
    + destruct (decide (k = k0)); [reflexivity|exact IH].
Qed.

Lemma lookup_prop_set_prop_eq (k : jsstring) (v : value) props :
  lookup_prop k (set_prop k v props) = Some v.
Proof.
  induction props as [|[k0 v0] props IH]; cbn.
  - destruct (decide (k = k)); [reflexivity|contradiction].
  - destruct (decide (k = k0)) as [->|Hk0]; cbn.
    + destruct (decide (k0 = k0)); [reflexivity|contradiction].
    + destruct (decide (k = k0)); [contradiction|exact IH].
Qed.

(** The test of the [if] in the handler, for a player count that is a
    number. *)
Lemma augment_condition S2N (props plprops : list (jsstring * value)) (n : Z) :
  lookup_prop (js "players") props = Some (VObj plprops) ->
  lookup_prop (js "online") plprops = Some (VNum n) ->
  Status.augment S2N (VObj props) =
    let result := VObj (set_prop (js "online") (VBool true) props) in
    if 0 <? n then
      let* sample := get (VObj plprops) (js "sample") in
      let* names :=
        Array_map "result.players.sample.map" sample
          (fun player => get player (js "name")) in
      let* nicknames := Array_join names (js ", ") in
      let* players := set (VObj plprops) (js "nicknames") (VStr nicknames) in
      set result (js "players") players
    else Ok result.
Proof.
  intros Hplayers Honline. unfold Status.augment. cbn [set bind get_opt get].
  rewrite lookup_prop_set_prop_ne by discriminate.
  rewrite Hplayers. cbn [default from_option id bind get_opt get].
  rewrite Honline. cbn [default from_option id bind ToBoolean gt_zero].
  destruct (Z.eqb_spec n 0) as [->|Hn]; cbn [negb]; [reflexivity|].
  destruct (Z.gtb_spec n 0), (Z.ltb_spec 0 n); try lia; reflexivity.
Qed.

Lemma map_names (elems : list value) (names : list jsstring) :
  Forall2 has_name elems names ->
  mapM (fun player => get player (js "name")) elems = Ok (map VStr names).
Proof.
  induction 1 as [|player name elems names (props & -> & Hname) _ IH]; [reflexivity|].
  cbn [mapM get map]. rewrite Hname, IH. reflexivity.
Qed.

Lemma join_names (names : list jsstring) (sep : jsstring) :
  Array_join (map VStr names) sep = Ok (join_strings sep names).
Proof.
  unfold Array_join.
  replace (mapM join_element (map VStr names)) with (Ok (A := list jsstring) names);
    [reflexivity|].
  induction names as [|name names IH]; [reflexivity|].
  cbn [map mapM join_element ToString]. rewrite <- IH. reflexivity.
Qed.

(** What the handler does with a parsed status that [Status.augment] accepts or
    refuses, the promise being pending. *)
Lemma status_on_data_parsed JSON_parse S2N (s : Status.State) (chunk : Buffer)
    (result : value) :
  promise (Status.out s) = None ->
  parseStatusResponse JSON_parse (Status.data s ++ chunk) = Ok result ->
  promise (Status.out (Status.on_data JSON_parse S2N chunk s)) =
    match Status.augment S2N result with
    | Ok result' => Some (Resolved result')
    | Err e => if String.eqb (message e) "Incomplete data" then None
               else Some (Rejected e)
    end.
Proof.
  intros Hpending Hparse. unfold Status.on_data. rewrite Hparse.
  destruct (Status.augment S2N result) as [result'|e]; cbn.
  - rewrite Hpending. reflexivity.
  - destruct (String.eqb (message e) "Incomplete data"); cbn; rewrite Hpending;
      reflexivity.
Qed.

(** [C6]: the status that the session resolves with.  When the parsed
    status counts more than zero players online and its sample is an
    array of entries with names, as [{name:"Alice"}, {name:"Bob"}] is,
    the players of the result have the names, joined by [", "], as
    their [nicknames]; when it counts zero players, the players of the
    result are those of the parsed status: no [nicknames] is put
    there. *)
Theorem status_nicknames JSON_parse S2N (s : Status.State) (chunk : Buffer)
    (props plprops : list (jsstring * value)) (n : Z) :
  promise (Status.out s) = None ->
  parseStatusResponse JSON_parse (Status.data s ++ chunk) = Ok (VObj props) ->
  lookup_prop (js "players") props = Some (VObj plprops) ->
  lookup_prop (js "online") plprops = Some (VNum n) ->
  (forall elems eprops names,
      0 < n ->
      lookup_prop (js "sample") plprops = Some (VArr elems eprops) ->
      Forall2 has_name elems names ->
      exists result players,
        promise (Status.out (Status.on_data JSON_parse S2N chunk s)) =
          Some (Resolved result) /\
        get result (js "players") = Ok (VObj players) /\
        lookup_prop (js "nicknames") players =
          Some (VStr (join_strings (js ", ") names))) /\
  (n = 0 ->
   exists result players,
     promise (Status.out (Status.on_data JSON_parse S2N chunk s)) =
       Some (Resolved result) /\
     get result (js "players") = Ok (VObj players) /\
     lookup_prop (js "nicknames") players = lookup_prop (js "nicknames") plprops).
Proof.
  intros Hpending Hparse Hplayers Honline.
  rewrite (status_on_data_parsed _ _ _ _ _ Hpending Hparse).
  rewrite (augment_condition _ _ _ _ Hplayers Honline). cbv zeta.
  split.
  - intros elems eprops names Hn Hsample Hnames.
    destruct (Z.ltb_spec 0 n); [|lia].
    cbn [get bind]. rewrite Hsample. cbn [default from_option id Array_map].
    rewrite (map_names _ _ Hnames). cbn [bind]. rewrite join_names. cbn [bind set].
    eexists _, _. split; [reflexivity|]. cbn [get].
    rewrite lookup_prop_set_prop_eq. split; [reflexivity|].
    apply lookup_prop_set_prop_eq.
  - intros ->. cbn [Z.ltb Z.compare].
    eexists _, plprops. split; [reflexivity|]. cbn [get].
    rewrite lookup_prop_set_prop_ne by discriminate. rewrite Hplayers.
    split; reflexivity.
Qed.

Example sample_parse :
  parseStatusResponse Sample.JSON_parse (Sample.response Sample.two_players_text) =
    Ok Sample.two_players.
Proof. vm_compute. reflexivity. Qed.

Lemma status_nicknames_witness :
  let on_data text :=
    Status.on_data Sample.JSON_parse Sample.StringToNumber_positive
      (Sample.response text) Status.init in
  (exists result players,
      promise (Status.out (on_data Sample.two_players_text)) = Some (Resolved result) /\
      get result (js "players") = Ok (VObj players) /\
      lookup_prop (js "nicknames") players = Some (VStr (js "Alice, Bob"))) /\
  (exists result players,
      promise (Status.out (on_data Sample.no_players_text)) = Some (Resolved result) /\
      get result (js "players") = Ok (VObj players) /\
      lookup_prop (js "nicknames") players = None).
Proof.
  split.
  - refine (proj1 (status_nicknames Sample.JSON_parse Sample.StringToNumber_positive
                     Status.init (Sample.response Sample.two_players_text)
                     _ _ 2 _ _ _ _) _ _ [js "Alice"; js "Bob"] _ _ _).
    + reflexivity.
    + vm_compute. reflexivity.
    + reflexivity.
    + reflexivity.
    + lia.
    + reflexivity.
    + repeat constructor; eexists; split; reflexivity.
  - refine (proj2 (status_nicknames Sample.JSON_parse Sample.StringToNumber_positive
                     Status.init (Sample.response Sample.no_players_text)
                     _ [(js "max", VNum 20); (js "online", VNum 0)] 0 _ _ _ _) _).
    + reflexivity.
    + vm_compute. reflexivity.
    + reflexivity.
    + reflexivity.
    + reflexivity.
Defined.

(** [C10]: when the parsed status counts more than zero players online
    and its players have no [sample], reading [sample.map] throws a
    [TypeError], which the handler catches: the session rejects with it
    and does not resolve. *)
Theorem status_sample_missing_rejects JSON_parse S2N (s : Status.State)
    (chunk : Buffer) (props plprops : list (jsstring * value)) (n : Z) :
  promise (Status.out s) = None ->
  parseStatusResponse JSON_parse (Status.data s ++ chunk) = Ok (VObj props) ->
  lookup_prop (js "players") props = Some (VObj plprops) ->
  lookup_prop (js "online") plprops = Some (VNum n) ->
  0 < n ->
  lookup_prop (js "sample") plprops = None ->
  Status.augment S2N (VObj props) = Err (TypeError "Cannot read properties of undefined (reading 'map')") /\
  promise (Status.out (Status.on_data JSON_parse S2N chunk s)) =
    Some (Rejected (TypeError "Cannot read properties of undefined (reading 'map')")).
Proof.
  intros Hpending Hparse Hplayers Honline Hn Hsample.
  assert (Haugment : Status.augment S2N (VObj props) =
                     Err (TypeError "Cannot read properties of undefined (reading 'map')")).
  { rewrite (augment_condition _ _ _ _ Hplayers Honline). cbv zeta.
    destruct (Z.ltb_spec 0 n); [|lia].
    cbn [get bind]. rewrite Hsample. reflexivity. }
  split; [exact Haugment|].
  rewrite (status_on_data_parsed _ _ _ _ _ Hpending Hparse), Haugment.
  reflexivity.
Qed.

Lemma status_sample_missing_rejects_witness :
  promise (Status.out
    (Status.on_data Sample.JSON_parse Sample.StringToNumber_positive
       (Sample.response Sample.no_sample_text) Status.init)) =
  Some (Rejected (TypeError "Cannot read properties of undefined (reading 'map')")).
Proof.
  refine (proj2 (status_sample_missing_rejects
                   Sample.JSON_parse Sample.StringToNumber_positive
                   Status.init (Sample.response Sample.no_sample_text)
                   _ [(js "max", VNum 20); (js "online", VNum 2)] 2 _ _ _ _ _ _)).
  - reflexivity.
  - vm_compute. reflexivity.
  - reflexivity.
  - reflexivity.
  - lia.
  - reflexivity.
Defined.

(** ** RCON codec round trip *)

(** [C9], as stated, fails at a payload whose last character takes more
    than one byte: of the two bytes of U+00E9 the decoder keeps the
    first, which it reads as U+FFFD, where the claim has the empty
    string. *)
Lemma rcon_roundtrip_last_character_fails :
  ~ (forall (type id : Z) (p : jsstring) packet packetInfo,
       p <> [] ->
       createRconPacket type id p = Ok packet ->
       parseRconPacket packet = Ok packetInfo ->
       pkt_payload packetInfo = removelast p).
Proof.
  intros H.
  specialize (H 2 0x456 [0xE9] [11; 0; 0; 0; 0x56; 0x04; 0; 0; 2; 0; 0; 0; 0xC3; 0xA9; 0]
                (mkRconPacket 11 0x456 2 [0xFFFD])).
  discriminate H; [discriminate|reflexivity|reflexivity].
Qed.

(** ** UTF-8 round trip *)

Lemma lor_high (m k a : Z) (c : Z) :
  c = m * 2 ^ k -> 0 <= k -> 0 <= a < 2 ^ k -> Z.lor c a = c + a.
Proof. intros -> Hk Ha. apply lor_disjoint_l; assumption. Qed.

Lemma land_mask (x k : Z) (mask : Z) :
  mask = 2 ^ k - 1 -> 0 <= k -> Z.land x mask = x mod 2 ^ k.
Proof. intros -> Hk. apply land_low. assumption. Qed.

(** The bytes of a code point, in arithmetic. *)
Lemma utf8_of_code_point_arith (cp : Z) :
  0 <= cp < 0x110000 ->
  utf8_of_code_point cp =
    if cp <? 0x80 then [cp]
    else if cp <? 0x800 then [0xC0 + cp / 64; 0x80 + cp mod 64]
    else if cp <? 0x10000 then
      [0xE0 + cp / 4096; 0x80 + (cp / 64) mod 64; 0x80 + cp mod 64]
    else
      [0xF0 + cp / 262144; 0x80 + (cp / 4096) mod 64;
       0x80 + (cp / 64) mod 64; 0x80 + cp mod 64].
Proof.
  intros Hcp. unfold utf8_of_code_point.
  rewrite !Z.shiftr_div_pow2 by lia.
  rewrite !(land_mask _ 6 0x3F) by (reflexivity || lia).
  change (2 ^ 6) with 64. change (2 ^ 12) with 4096. change (2 ^ 18) with 262144.
  destruct (Z.ltb_spec cp 0x80); [reflexivity|].
  destruct (Z.ltb_spec cp 0x800); [|destruct (Z.ltb_spec cp 0x10000)].
  - rewrite (lor_high 3 6 (cp / 64)), (lor_high 2 6 (cp mod 64));
      (reflexivity || lia || zlia).
  - rewrite (lor_high 7 5 (cp / 4096)), !(lor_high 2 6 (_ mod 64));
      (reflexivity || lia || zlia).
  - rewrite (lor_high 15 4 (cp / 262144)), !(lor_high 2 6 (_ mod 64));
      (reflexivity || lia || zlia).
Qed.

Section Decoder.

Variables (rest : list Z) (b : Z).

Lemma decode_ascii (cp seen lower upper : Z) :
  0 <= b <= 0x7F ->
  utf8_decode_loop (b :: rest) cp 0 seen lower upper =
    b :: utf8_decode_loop rest 0 0 0 0x80 0xBF.
Proof.
  intros Hb. cbn [utf8_decode_loop Z.eqb].
  destruct (Z.leb_spec b 0x7F); [reflexivity|lia].
Qed.

Lemma decode_lead2 (cp seen lower upper : Z) :
  0xC2 <= b <= 0xDF ->
  utf8_decode_loop (b :: rest) cp 0 seen lower upper =
    utf8_decode_loop rest (b mod 32) 1 0 0x80 0xBF.
Proof.
  intros Hb. cbn [utf8_decode_loop Z.eqb].
  rewrite (land_mask b 5 0x1F) by (reflexivity || lia).
  destruct (Z.leb_spec b 0x7F); [lia|].
  destruct (Z.leb_spec 0xC2 b), (Z.leb_spec b 0xDF); try lia. reflexivity.
Qed.

Lemma decode_lead3 (cp seen lower upper : Z) :
  0xE0 <= b <= 0xEF ->
  utf8_decode_loop (b :: rest) cp 0 seen lower upper =
    utf8_decode_loop rest (b mod 16) 2 0
      (if b =? 0xE0 then 0xA0 else 0x80) (if b =? 0xED then 0x9F else 0xBF).
Proof.
  intros Hb. cbn [utf8_decode_loop Z.eqb].
  rewrite (land_mask b 4 0xF) by (reflexivity || lia).
  destruct (Z.leb_spec b 0x7F); [lia|].
  destruct (Z.leb_spec 0xC2 b), (Z.leb_spec b 0xDF); try lia;
    destruct (Z.leb_spec 0xE0 b), (Z.leb_spec b 0xEF); try lia; reflexivity.
Qed.

Lemma decode_lead4 (cp seen lower upper : Z) :
  0xF0 <= b <= 0xF4 ->
  utf8_decode_loop (b :: rest) cp 0 seen lower upper =
    utf8_decode_loop rest (b mod 8) 3 0
      (if b =? 0xF0 then 0x90 else 0x80) (if b =? 0xF4 then 0x8F else 0xBF).
Proof.
  intros Hb. cbn [utf8_decode_loop Z.eqb].
  rewrite (land_mask b 3 0x7) by (reflexivity || lia).
  destruct (Z.leb_spec b 0x7F); [lia|].
  destruct (Z.leb_spec 0xC2 b), (Z.leb_spec b 0xDF); try lia;
    destruct (Z.leb_spec 0xE0 b), (Z.leb_spec b 0xEF); try lia;
    destruct (Z.leb_spec 0xF0 b), (Z.leb_spec b 0xF4); try lia; reflexivity.
Qed.

(** A continuation byte that is not the last of its sequence. *)
Lemma decode_continue (cp needed seen lower upper : Z) :
  needed <> 0 -> lower <= b <= upper -> seen + 1 <> needed ->
  utf8_decode_loop (b :: rest) cp needed seen lower upper =
    utf8_decode_loop rest (cp * 64 + b mod 64) needed (seen + 1) 0x80 0xBF.
Proof.
  intros Hneeded Hb Hseen. cbn [utf8_decode_loop].
  rewrite (land_mask b 6 0x3F), Z.shiftl_mul_pow2 by (reflexivity || lia).
  rewrite (lor_high cp 6) by (reflexivity || lia || zlia).
  destruct (Z.eqb_spec needed 0); [contradiction|].
  destruct (Z.ltb_spec b lower), (Z.ltb_spec upper b); try lia.
  destruct (Z.eqb_spec (seen + 1) needed); [contradiction|]. reflexivity.
Qed.

(** The last continuation byte of a sequence. *)
Lemma decode_complete (cp needed seen lower upper : Z) :
  needed <> 0 -> lower <= b <= upper -> seen + 1 = needed ->
  utf8_decode_loop (b :: rest) cp needed seen lower upper =
    (cp * 64 + b mod 64) :: utf8_decode_loop rest 0 0 0 0x80 0xBF.
Proof.
  intros Hneeded Hb Hseen. cbn [utf8_decode_loop].
  rewrite (land_mask b 6 0x3F), Z.shiftl_mul_pow2 by (reflexivity || lia).
  rewrite (lor_high cp 6) by (reflexivity || lia || zlia).
  destruct (Z.eqb_spec needed 0); [contradiction|].
  destruct (Z.ltb_spec b lower), (Z.ltb_spec upper b); try lia.
  destruct (Z.eqb_spec (seen + 1) needed); [reflexivity|contradiction].
Qed.

End Decoder.

(** The decoder reads the bytes of a scalar value back as that value. *)
Lemma decode_code_point (cp : Z) (rest : list Z) :
  is_scalar cp ->
  utf8_decode_loop (utf8_of_code_point cp ++ rest) 0 0 0 0x80 0xBF =
    cp :: utf8_decode_loop rest 0 0 0 0x80 0xBF.
Proof.
  intros [Hcp Hsur]. rewrite utf8_of_code_point_arith by assumption.
  destruct (Z.ltb_spec cp 0x80); [|destruct (Z.ltb_spec cp 0x800);
    [|destruct (Z.ltb_spec cp 0x10000)]]; cbn [app].
  - apply decode_ascii. lia.
  - rewrite decode_lead2 by zlia.
    rewrite decode_complete by zlia. f_equal. zlia.
  - rewrite decode_lead3 by zlia.
    rewrite decode_continue;
      [|lia|destruct (Z.eqb_spec (0xE0 + cp / 4096) 0xE0),
              (Z.eqb_spec (0xE0 + cp / 4096) 0xED); zlia|lia].
    rewrite decode_complete by zlia. f_equal. zlia.
  - rewrite decode_lead4 by zlia.
    rewrite decode_continue;
      [|lia|destruct (Z.eqb_spec (0xF0 + cp / 262144) 0xF0),
              (Z.eqb_spec (0xF0 + cp / 262144) 0xF4); zlia|lia].
    rewrite decode_continue by zlia.
    rewrite decode_complete by zlia. f_equal. zlia.
Qed.

Lemma surrogate_bounds (c : Z) :
  (is_high_surrogate c = true <-> 0xD800 <= c <= 0xDBFF) /\
  (is_low_surrogate c = true <-> 0xDC00 <= c <= 0xDFFF).
Proof.
  unfold is_high_surrogate, is_low_surrogate.
  rewrite !andb_true_iff, !Z.leb_le. tauto.
Qed.

(** A surrogate pair stands for a scalar value beyond the basic plane,
    whose UTF-16 form is the pair. *)
Lemma pair_code_point_scalar (hi lo : Z) :
  is_high_surrogate hi = true -> is_low_surrogate lo = true ->
  is_scalar (pair_code_point hi lo) /\
  utf16_of_code_point (pair_code_point hi lo) = [hi; lo].
Proof.
  intros Hhi%surrogate_bounds Hlo%surrogate_bounds.
  unfold is_scalar, utf16_of_code_point, pair_code_point.
  rewrite Z.shiftl_mul_pow2, Z.shiftr_div_pow2 by lia.
  rewrite (land_mask _ 10 0x3FF) by (reflexivity || lia).
  change (2 ^ 10) with 1024.
  split; [lia|].
  destruct (Z.ltb_spec (65536 + (hi - 55296) * 1024 + (lo - 56320)) 65536); [lia|].
  f_equal; [zlia|]. f_equal. zlia.
Qed.

(** A code unit that is not a surrogate is a scalar value. *)
Lemma code_unit_scalar (c : Z) :
  is_high_surrogate c = false -> is_low_surrogate c = false ->
  0 <= c <= 0xFFFF -> is_scalar c.
Proof.
  intros Hhi Hlo Hc. pose proof (surrogate_bounds c) as [Hh Hl]. unfold is_scalar.
  destruct (Z.lt_ge_cases c 0xD800); [lia|].
  destruct (Z.lt_ge_cases 0xDFFF c); [lia|].
  destruct (Z.le_gt_cases c 0xDBFF);
    [rewrite (proj2 Hh) in Hhi by lia|rewrite (proj2 Hl) in Hlo by lia];
    discriminate.
Qed.

(** Decoding the UTF-8 bytes of a well-formed string gives the string. *)
Lemma utf8_decode_encode (s : jsstring) (tail : list Z) :
  well_formed s = true ->
  utf8_decode (utf8_encode s ++ tail) = s ++ utf8_decode tail.
Proof.
  unfold utf8_decode.
  induction s as [|a|a b l IHl IHbl] using list_pair_ind.
  - reflexivity.
  - cbn [well_formed utf8_encode].
    destruct (is_high_surrogate a) eqn:Hhi; [discriminate|].
    destruct (is_low_surrogate a) eqn:Hlo; [discriminate|]. cbn [negb andb].
    rewrite !andb_true_iff, !Z.leb_le. intros [[Hlow Hup] _].
    rewrite <- app_assoc, decode_code_point.
    + cbn [flat_map app]. unfold utf16_of_code_point at 1.
      destruct (Z.ltb_spec a 0x10000); [reflexivity|lia].
    + apply code_unit_scalar; assumption || lia.
  - rewrite utf8_encode_two.
    change (well_formed (a :: b :: l)) with
      (if is_high_surrogate a then is_low_surrogate b && well_formed l
       else negb (is_low_surrogate a) && (0 <=? a) && (a <=? 0xFFFF)
            && well_formed (b :: l)).
    destruct (is_high_surrogate a) eqn:Hhi.
    + destruct (is_low_surrogate b) eqn:Hlo; [|discriminate]. cbn [andb].
      intros Hl.
      destruct (pair_code_point_scalar a b Hhi Hlo) as [Hscalar Hpair].
      rewrite <- app_assoc, decode_code_point by assumption.
      cbn [flat_map]. rewrite Hpair, IHl by assumption. reflexivity.
    + destruct (is_low_surrogate a) eqn:Hlo; [discriminate|]. cbn [negb andb].
      rewrite !andb_true_iff, !Z.leb_le. intros [[Hlow Hup] Hbl].
      rewrite <- app_assoc, decode_code_point.
      * cbn [flat_map]. rewrite IHbl by assumption.
        unfold utf16_of_code_point at 1.
        destruct (Z.ltb_spec a 0x10000); [reflexivity|lia].
      * apply code_unit_scalar; assumption || lia.
Qed.

Lemma removelast_snoc {A : Type} (l : list A) (x : A) : removelast (l ++ [x]) = l.
Proof. apply removelast_last. Qed.

(** [C9], amended: a packet that [createRconPacket] has built is parsed
    into the length, the request id and the type it was built from, and
    into the payload that the UTF-8 bytes of [p] without the last of
    them decode to.  That payload is [p] without its last character
    when this character is an ASCII one and the characters before it are
    well formed. *)
Theorem rcon_roundtrip (type id : Z) (p : jsstring) :
  is_int32 type -> is_int32 id ->
  is_int32 (4 + 4 + blength (utf8_encode p ++ [0])) ->
  exists packet packetInfo,
    createRconPacket type id p = Ok packet /\
    parseRconPacket packet = Ok packetInfo /\
    pkt_id packetInfo = id /\ pkt_type packetInfo = type /\
    pkt_length packetInfo = 4 + 4 + blength (utf8_encode p ++ [0]) /\
    pkt_payload packetInfo = utf8_decode (removelast (utf8_encode p)) /\
    (forall q c, p = q ++ [c] -> is_ascii c -> well_formed q = true ->
       pkt_payload packetInfo = q).
Proof.
  intros Htype Hid Hlength.
  eexists _, _. split; [apply createRconPacket_ok; assumption|].
  split; [apply parseRconPacket_one_terminator; assumption|].
  cbn [pkt_id pkt_type pkt_length pkt_payload].
  repeat (split; [reflexivity|]).
  intros q c -> [Hc0 Hc] Hq.
  rewrite utf8_encode_app.
  - cbn [utf8_encode].
    replace (is_high_surrogate c) with false
      by (symmetry; unfold is_high_surrogate; apply andb_false_iff; left;
          apply Z.leb_gt; lia).
    replace (is_low_surrogate c) with false
      by (symmetry; unfold is_low_surrogate; apply andb_false_iff; left;
          apply Z.leb_gt; lia).
    unfold utf8_of_code_point. destruct (Z.ltb_spec c 0x80); [|lia].
    cbn [app]. rewrite removelast_snoc.
    rewrite <- (app_nil_r (utf8_encode q)), utf8_decode_encode by assumption.
    apply app_nil_r.
  - unfold is_low_surrogate. apply andb_false_iff. left. apply Z.leb_gt. lia.
Qed.

Lemma rcon_roundtrip_witness :
  exists packet packetInfo,
    createRconPacket 2 0x456 (js "list") = Ok packet /\
    parseRconPacket packet = Ok packetInfo /\
    pkt_payload packetInfo = js "lis".
Proof.
  destruct (rcon_roundtrip 2 0x456 (js "list"))
    as (packet & packetInfo & Hcreate & Hparse & _ & _ & _ & _ & Hascii);
    [unfold is_int32; lia..|change (is_int32 13); unfold is_int32; lia|].
  exists packet, packetInfo. split; [exact Hcreate|]. split; [exact Hparse|].
  apply (Hascii (js "lis") 116); [reflexivity|unfold is_ascii; lia|reflexivity].
Defined.

(** ** The sessions on sample exchanges *)

(** A response that comes in two chunks: the first leaves the session
    waiting, the second resolves it; the end and the close of the
    connection that follow call nothing. *)
Example status_two_chunks :
  let response := Sample.response Sample.two_players_text in
  let run := Status.run Sample.JSON_parse Sample.StringToNumber_positive
               (js "localhost") 25565 in
  promise (Status.out (run [EvConnect; EvData (take 5 response)])) = None /\
  (exists result,
     promise (Status.out (run [EvConnect; EvData (take 5 response);
                               EvData (drop 5 response); EvEnd; EvClose])) =
       Some (Resolved result) /\
     calls (Status.out (run [EvConnect; EvData (take 5 response);
                             EvData (drop 5 response); EvEnd; EvClose])) =
       [Resolved result]).
Proof.
  split; [vm_compute; reflexivity|].
  eexists. split; vm_compute; reflexivity.
Qed.

(** The handshake for [localhost:25565]; the protocol version [-1] is
    sent as the byte 0. *)
Example handshake_localhost :
  createHandshakePacket (js "localhost") 25565 =
    Ok [15; 0; 0; 9; 108; 111; 99; 97; 108; 104; 111; 115; 116; 0x63; 0xDD; 1].
Proof. vm_compute. reflexivity. Qed.

(** * Further properties of the code *)

(** ** VarInt decoder *)

Lemma js_and_80_continues (b : Z) :
  continues b -> js_and b 0x80 = 128.
Proof.
  intros Hb. replace b with ((b - 128) + 128) by lia.
  apply js_and_80. unfold continues in Hb. lia.
Qed.

Lemma js_and_80_last (b : Z) : 0 <= b < 128 -> js_and b 0x80 = 0.
Proof. intros Hb. apply js_and_80. assumption. Qed.

(** Bytes that come after the ones a successful decoding has read do not
    change it. *)
Lemma readVarInt_loop_app (l extra : list Z) (value position : Z) r :
  readVarInt_loop l value position = Ok r ->
  readVarInt_loop (l ++ extra) value position = Ok r.
Proof.
  revert value position. induction l as [|b l IH]; intros value position.
  - discriminate.
  - cbn [readVarInt_loop app].
    destruct (position + 1 >? 5); [discriminate|].
    destruct (negb (js_and b 128 =? 0)); [apply IH|trivial].
Qed.

(** A successful decoding has read at least one byte, at most as many
    as bring the position to five, and no more than there are. *)
Lemma readVarInt_loop_size (l : list Z) (value position v size : Z) :
  readVarInt_loop l value position = Ok (v, size) ->
  position < size <= 5 /\ size - position <= Z.of_nat (length l).
Proof.
  revert value position. induction l as [|b l IH]; intros value position.
  - discriminate.
  - cbn [readVarInt_loop length].
    destruct (Z.gtb_spec (position + 1) 5) as [Hgt|Hle]; [discriminate|].
    destruct (negb (js_and b 128 =? 0)).
    + intros H. apply IH in H. lia.
    + intros [= _ <-]. lia.
Qed.

(** What a successful decoding has read: fewer bytes make it incomplete,
    the same bytes give the same result. *)
Lemma readVarInt_loop_take (l : list Z) (n : nat) (value position v size : Z) :
  readVarInt_loop l value position = Ok (v, size) ->
  readVarInt_loop (take n l) value position =
    if Z.of_nat n <? size - position then Err (Error "Incomplete data")
    else Ok (v, size).
Proof.
  revert n value position. induction l as [|b l IH]; intros n value position.
  - discriminate.
  - intros H. pose proof (readVarInt_loop_size _ _ _ _ _ H) as Hsize.
    destruct n as [|n].
    + cbn [take readVarInt_loop].
      destruct (Z.ltb_spec (Z.of_nat 0) (size - position)); [reflexivity|lia].
    + revert H. cbn [take readVarInt_loop].
      destruct (Z.gtb_spec (position + 1) 5) as [Hgt|Hle]; [discriminate|].
      destruct (negb (js_and b 128 =? 0)).
      * intros H. rewrite (IH n _ _ H).
        destruct (Z.ltb_spec (Z.of_nat n) (size - (position + 1))),
                 (Z.ltb_spec (Z.of_nat (S n)) (size - position)); lia || reflexivity.
      * intros [= <- <-].
        destruct (Z.ltb_spec (Z.of_nat (S n)) (position + 1 - position));
          [lia|reflexivity].
Qed.

(** The bitwise or of two 32-bit signed integers is one. *)
Lemma lor_int32 (a b : Z) : is_int32 a -> is_int32 b -> is_int32 (Z.lor a b).
Proof.
  assert (Hshift : forall x, is_int32 x <-> Z.shiftr x 31 = 0 \/ Z.shiftr x 31 = -1).
  { intros x. unfold is_int32. rewrite Z.shiftr_div_pow2 by lia.
    change (2 ^ 31) with 2147483648. zlia. }
  rewrite !Hshift, Z.shiftr_lor. intros [-> | ->] [-> | ->]; cbn; auto.
Qed.

Lemma ToInt32_is_int32 (x : Z) : is_int32 (ToInt32 x).
Proof. apply ToInt32_range. Qed.

Lemma readVarInt_loop_int32 (l : list Z) (value position v size : Z) :
  readVarInt_loop l value position = Ok (v, size) -> is_int32 v.
Proof.
  revert value position. induction l as [|b l IH]; intros value position.
  - discriminate.
  - cbn [readVarInt_loop].
    destruct (position + 1 >? 5); [discriminate|].
    destruct (negb (js_and b 128 =? 0)).
    + apply IH.
    + intros [= <- _]. apply lor_int32; apply ToInt32_is_int32.
Qed.

(** [readVarInt], when it returns, has read between one and five bytes
    of the buffer, all of them present, and returns a 32-bit signed
    integer. *)
Theorem readVarInt_bounds (buffer : Buffer) (offset value size : Z) :
  0 <= offset ->
  readVarInt buffer offset = Ok (value, size) ->
  1 <= size <= 5 /\ offset + size <= blength buffer /\ is_int32 value.
Proof.
  intros Hoffset H. unfold readVarInt in H.
  pose proof (readVarInt_loop_size _ _ _ _ _ H) as [Hsize Hlen].
  rewrite length_drop in Hlen. unfold blength.
  split; [lia|]. split; [lia|]. exact (readVarInt_loop_int32 _ _ _ _ _ H).
Qed.

Lemma readVarInt_bounds_witness :
  1 <= 2 <= 5 /\ 1 + 2 <= blength [7; 172; 2; 9] /\ is_int32 300.
Proof.
  apply (readVarInt_bounds [7; 172; 2; 9] 1 300 2); [lia|reflexivity].
Defined.

(** Bytes appended to the buffer do not change a VarInt that
    [readVarInt] has decoded. *)
Theorem readVarInt_append (buffer extra : Buffer) (offset value size : Z) :
  0 <= offset ->
  readVarInt buffer offset = Ok (value, size) ->
  readVarInt (buffer ++ extra) offset = Ok (value, size).
Proof.
  intros Hoffset H. unfold readVarInt in *.
  pose proof (readVarInt_loop_size _ _ _ _ _ H) as [Hsize Hlen].
  rewrite length_drop in Hlen.
  rewrite drop_app_le by lia. apply readVarInt_loop_app, H.
Qed.

Lemma readVarInt_append_witness :
  readVarInt ([7; 172; 2] ++ [9; 9]) 1 = Ok (300, 2).
Proof.
  apply (readVarInt_append [7; 172; 2] [9; 9] 1 300 2); [lia|reflexivity].
Defined.

Lemma readVarInt_loop_incomplete (l : list Z) (value position : Z) :
  Forall continues l -> position + Z.of_nat (length l) <= 5 ->
  readVarInt_loop l value position = Err (Error "Incomplete data").
Proof.
  intros Hl. revert value position.
  induction Hl as [|b l Hb _ IH]; intros value position Hlen; [reflexivity|].
  cbn [readVarInt_loop length] in *.
  destruct (Z.gtb_spec (position + 1) 5) as [Hgt|Hle]; [lia|].
  rewrite (js_and_80_continues b Hb). cbn [Z.eqb negb]. apply IH. lia.
Qed.

(** When the buffer ends before a byte without the continuation bit has
    come, at most five bytes having been read, [readVarInt] throws the
    error of incomplete data; an offset at the end of the buffer is such
    a case. *)
Theorem readVarInt_incomplete (buffer : Buffer) (offset : Z) :
  0 <= offset ->
  Forall continues (drop (Z.to_nat offset) buffer) ->
  blength buffer - offset <= 5 ->
  readVarInt buffer offset = Err (Error "Incomplete data").
Proof.
  intros Hoffset Hcont Hlen. unfold readVarInt.
  apply readVarInt_loop_incomplete; [assumption|].
  rewrite length_drop. unfold blength in Hlen. lia.
Qed.

Lemma readVarInt_incomplete_witness :
  readVarInt [0; 0x80; 0xFF] 1 = Err (Error "Incomplete data") /\
  readVarInt [0; 0x80; 0xFF] 3 = Err (Error "Incomplete data").
Proof.
  split.
  - apply (readVarInt_incomplete [0; 0x80; 0xFF] 1);
      [lia|repeat constructor; unfold continues; lia|unfold blength; cbn; lia].
  - apply (readVarInt_incomplete [0; 0x80; 0xFF] 3);
      [lia|constructor|unfold blength; cbn; lia].
Defined.

Lemma readVarInt_loop_too_big (k : nat) :
  forall (l : list Z) (value position : Z),
    position = 5 - Z.of_nat k ->
    Forall continues (take k l) -> (k < length l)%nat ->
    readVarInt_loop l value position = Err (Error "VarInt too big").
Proof.
  induction k as [|k IH]; intros l value position Hposition Hcont Hlen;
    destruct l as [|b l]; cbn [length] in Hlen; try lia;
    cbn [readVarInt_loop].
  - destruct (Z.gtb_spec (position + 1) 5) as [Hgt|Hle]; [reflexivity|lia].
  - cbn [take] in Hcont. apply Forall_cons in Hcont as [Hb Hcont].
    destruct (Z.gtb_spec (position + 1) 5) as [Hgt|Hle]; [lia|].
    rewrite (js_and_80_continues b Hb). cbn [Z.eqb negb].
    apply IH; [lia|assumption|lia].
Qed.

(** Five bytes with the continuation bit that are followed by another
    byte make [readVarInt] throw the error of a VarInt that is too big. *)
Theorem readVarInt_too_big (buffer : Buffer) (offset : Z) :
  0 <= offset ->
  Forall continues (take 5 (drop (Z.to_nat offset) buffer)) ->
  offset + 5 < blength buffer ->
  readVarInt buffer offset = Err (Error "VarInt too big").
Proof.
  intros Hoffset Hcont Hlen. unfold readVarInt.
  apply (readVarInt_loop_too_big 5); [reflexivity|assumption|].
  rewrite length_drop. unfold blength in Hlen. lia.
Qed.

Lemma readVarInt_too_big_witness :
  readVarInt [0xFF; 0xFF; 0xFF; 0xFF; 0xFF; 0x01] 0 = Err (Error "VarInt too big").
Proof.
  apply (readVarInt_too_big [0xFF; 0xFF; 0xFF; 0xFF; 0xFF; 0x01] 0);
    [lia|repeat constructor; unfold continues; lia|unfold blength; cbn; lia].
Defined.

(** Five bytes with the continuation bit and nothing after them are not
    refused: the decoder asks for a sixth byte. *)
Example readVarInt_five_continuations :
  readVarInt [0xFF; 0xFF; 0xFF; 0xFF; 0xFF] 0 = Err (Error "Incomplete data").
Proof. reflexivity. Qed.

(** ** VarInt encoder *)

(** The bytes that the loop of the encoder adds: bytes with the
    continuation bit, then one without; the last one is not zero when
    the value is not. *)
Lemma varintEncode_loop_shape (fuel : nat) :
  forall (v : Z) (bytes res : list Z),
    0 <= v < 2 ^ 32 ->
    varintEncode_loop fuel v bytes = Ok res ->
    exists init last,
      res = bytes ++ init ++ [last] /\ Forall continues init /\
      0 <= last < 128 /\ (v <> 0 -> last <> 0).
Proof.
  induction fuel as [|fuel IH]; intros v bytes res Hv; [discriminate|].
  rewrite varintEncode_loop_step by assumption.
  destruct (Z.eqb_spec (v / 128) 0) as [Hlast|Hmore].
  - intros [= <-]. exists [], (v mod 128).
    split; [reflexivity|]. split; [constructor|]. zlia.
  - intros H. apply IH in H as (init & last & -> & Hinit & Hlast & Hnz); [|zlia].
    exists ((v mod 128 + 128) :: init), last.
    split; [rewrite <- app_assoc; reflexivity|].
    split; [constructor; [unfold continues; zlia|assumption]|].
    split; [assumption|]. intros _. apply Hnz, Hmore.
Qed.

(** [varintEncode] returns, for every integer, at most four bytes that
    have the continuation bit followed by one byte that has not; the
    encoding is the shortest one: its last byte is zero only when it is
    the only byte. *)
Theorem varintEncode_shape (value : Z) :
  exists init last,
    varintEncode value = Ok (init ++ [last]) /\
    (length init <= 4)%nat /\ Forall continues init /\
    0 <= last < 128 /\ (init <> [] -> last <> 0).
Proof.
  unfold varintEncode.
  set (v := if value <? 0 then js_shl 1 32 + value else value). clearbody v.
  rewrite varintEncode_loop_ToUint32.
  pose proof (ToUint32_range v) as Hu.
  destruct (varint_loops 4 (ToUint32 v) 0 0 [] 32)
    as (out & Henc & Hbytes & Hlen & _);
    [lia|lia|lia|cbn; lia|cbn; lia|cbn; lia|].
  destruct (varintEncode_loop_shape _ _ _ _ Hu Henc)
    as (init & last & Hout & Hinit & Hlast & Hnz).
  cbn [app] in Hout. subst out.
  exists init, last. rewrite Henc. cbn [bind app].
  rewrite Buffer_from_bytes by assumption.
  split; [reflexivity|]. rewrite length_app in Hlen. cbn [length] in Hlen.
  split; [lia|]. split; [assumption|]. split; [assumption|].
  intros Hne. apply Hnz. intros Hzero. apply Hne.
  rewrite Hzero in Henc. cbn in Henc. injection Henc as Henc.
  destruct init as [|b init]; [reflexivity|].
  destruct init; discriminate Henc.
Qed.

Lemma varintEncode_shape_witness :
  exists init last,
    varintEncode 300 = Ok (init ++ [last]) /\
    (length init <= 4)%nat /\ Forall continues init /\
    0 <= last < 128 /\ (init <> [] -> last <> 0).
Proof. apply (varintEncode_shape 300). Defined.

(** The encoding of an unsigned 32-bit integer, wherever it stands in a
    buffer, is read back from its offset. *)
Lemma varintEncode_readVarInt (v : Z) :
  0 <= v < 2 ^ 32 ->
  exists bytes,
    varintEncode v = Ok bytes /\ (1 <= length bytes <= 5)%nat /\
    forall pre post : Buffer,
      readVarInt (pre ++ bytes ++ post) (blength pre) =
        Ok (if v <? 2 ^ 31 then v else v - 2 ^ 32, blength bytes).
Proof.
  intros Hv. unfold varintEncode.
  destruct (Z.ltb_spec v 0); [lia|].
  destruct (varint_loops 4 v 0 0 [] 32) as (out & -> & Hbytes & Hlen & Hdec);
    [lia|lia|lia|cbn; lia|cbn; lia|cbn; lia|].
  exists out. cbn [bind app]. rewrite Buffer_from_bytes by assumption.
  split; [reflexivity|]. split; [assumption|]. intros pre post.
  unfold readVarInt, blength. rewrite Nat2Z.id, drop_app_length.
  rewrite (readVarInt_loop_app _ _ _ _ _ Hdec).
  rewrite <- ToInt32_unsigned by assumption.
  repeat f_equal. change (2 ^ (7 * 0)) with 1. lia.
Qed.

(** A VarInt that [varintEncode] has written into a packet is read back
    by [readVarInt] from the offset where it starts, whatever comes
    before and after it: as the value itself below [2 ^ 31], and with
    the number of bytes it takes. *)
Theorem varint_roundtrip_in_packet (v : Z) (pre post : Buffer) :
  0 <= v < 2 ^ 31 ->
  exists bytes,
    varintEncode v = Ok bytes /\
    readVarInt (pre ++ bytes ++ post) (blength pre) = Ok (v, blength bytes).
Proof.
  intros Hv.
  destruct (varintEncode_readVarInt v) as (bytes & Henc & _ & Hdec); [lia|].
  exists bytes. split; [assumption|]. rewrite Hdec.
  destruct (Z.ltb_spec v (2 ^ 31)); [reflexivity|lia].
Qed.

Lemma varint_roundtrip_in_packet_witness :
  exists bytes,
    varintEncode 300 = Ok bytes /\
    readVarInt ([0; 1] ++ bytes ++ [7]) (blength [0; 1]) = Ok (300, blength bytes).
Proof. apply (varint_roundtrip_in_packet 300 [0; 1] [7]). lia. Defined.

(** ** Status response parser *)

Ltac case_cmp :=
  repeat match goal with
         | |- context [?a <? ?b] => destruct (Z.ltb_spec a b)
         | |- context [?a <=? ?b] => destruct (Z.leb_spec a b)
         | H : context [?a <? ?b] |- _ => destruct (Z.ltb_spec a b)
         | H : context [?a <=? ?b] |- _ => destruct (Z.leb_spec a b)
         end;
  cbn [andb orb negb].

(** [buf.toString('utf8', start, end)] on a slice that is there. *)
Lemma Buffer_toString_slice (pre mid post : Buffer) :
  Buffer_toString (pre ++ mid ++ post) (blength pre) (blength pre + blength mid) =
    utf8_decode mid.
Proof.
  assert (Hempty : length mid = 0%nat -> utf8_decode mid = [])
    by (destruct mid; [reflexivity|discriminate]).
  unfold Buffer_toString, blength. rewrite !length_app, !Nat2Z.inj_add.
  case_cmp; try lia; try (symmetry; apply Hempty; lia).
  all: f_equal.
  all: destruct pre as [|b0 pre]; cbn [length] in *; try lia.
  all: rewrite ?Nat2Z.id; cbn [app Z.to_nat skipn]; rewrite ?drop_app_length.
  all: match goal with
       | |- take ?n _ = _ => replace n with (length mid) by lia
       end;
       apply take_app_length.
Qed.

Lemma readVarInt_zero_byte (pre post : Buffer) :
  readVarInt (pre ++ 0 :: post) (blength pre) = Ok (0, 1).
Proof.
  unfold readVarInt, blength. rewrite Nat2Z.id, drop_app_length. reflexivity.
Qed.

(** What [parseStatusResponse] makes of a response that is framed as
    the protocol says. *)
Lemma parseStatusResponse_framed JSON_parse (packetLength jsonLength json extra : Buffer) :
  (forall pre post : Buffer,
     readVarInt (pre ++ packetLength ++ post) (blength pre) =
       Ok (blength ([0] ++ jsonLength ++ json), blength packetLength)) ->
  (forall pre post : Buffer,
     readVarInt (pre ++ jsonLength ++ post) (blength pre) =
       Ok (blength json, blength jsonLength)) ->
  parseStatusResponse JSON_parse
    ((packetLength ++ [0] ++ jsonLength ++ json) ++ extra) =
  match JSON_parse (utf8_decode json) with
  | inr response => Ok response
  | inl m => Err (Error ("Failed to parse server response: " +:+ m))
  end.
Proof.
  intros HpacketLength HjsonLength. unfold parseStatusResponse.
  set (data := (packetLength ++ [0] ++ jsonLength ++ json) ++ extra).
  assert (Hdata : blength data =
                  blength packetLength + 1 + blength jsonLength + blength json +
                  blength extra).
  { unfold data, blength. rewrite !length_app. cbn [length]. lia. }
  assert (Hbody : blength ([0] ++ jsonLength ++ json) =
                  1 + blength jsonLength + blength json).
  { unfold blength. rewrite !length_app. cbn [length]. lia. }
  assert (Hnonneg : 0 <= blength extra) by (unfold blength; lia).
  replace (readVarInt data 0)
    with (Ok (blength ([0] ++ jsonLength ++ json), blength packetLength)).
  2:{ symmetry. unfold data. rewrite <- app_assoc.
      apply (HpacketLength [] _). }
  cbn [bind fst snd]. rewrite Z.add_0_l, Hbody.
  destruct (Z.ltb_spec (blength data)
              (blength packetLength + (1 + blength jsonLength + blength json)));
    [lia|].
  replace (readVarInt data (blength packetLength)) with (Ok (A := Z * Z) (0, 1)).
  2:{ symmetry. unfold data. rewrite <- app_assoc. apply readVarInt_zero_byte. }
  cbn [bind fst snd Z.eqb negb].
  replace (readVarInt data (blength packetLength + 1))
    with (Ok (blength json, blength jsonLength)).
  2:{ symmetry. unfold data.
      replace (blength packetLength + 1) with (blength (packetLength ++ [0]))
        by (unfold blength; rewrite length_app; cbn [length]; lia).
      replace ((packetLength ++ [0] ++ jsonLength ++ json) ++ extra)
        with ((packetLength ++ [0]) ++ jsonLength ++ (json ++ extra))
        by (rewrite <- !app_assoc; reflexivity).
      apply HjsonLength. }
  cbn [bind fst snd].
  destruct (Z.ltb_spec (blength data)
              (blength packetLength + 1 + blength jsonLength + blength json));
    [lia|].
  replace (Buffer_toString data (blength packetLength + 1 + blength jsonLength)
             (blength packetLength + 1 + blength jsonLength + blength json))
    with (utf8_decode json); [reflexivity|].
  symmetry. unfold data.
  replace (blength packetLength + 1 + blength jsonLength)
    with (blength (packetLength ++ [0] ++ jsonLength))
    by (unfold blength; rewrite !length_app; cbn [length]; lia).
  replace ((packetLength ++ [0] ++ jsonLength ++ json) ++ extra)
    with ((packetLength ++ [0] ++ jsonLength) ++ json ++ extra)
    by (rewrite <- !app_assoc; reflexivity).
  apply Buffer_toString_slice.
Qed.

(** A status response that is framed as the protocol says, and carries
    a well-formed JSON text of less than [2 ^ 31 - 6] bytes, is parsed
    by handing this very text to [JSON.parse]: the parser returns what
    [JSON.parse] returns and turns its syntax error into its own error.
    Bytes that follow the packet in the buffer are not looked at. *)
Theorem parseStatusResponse_complete JSON_parse (text : jsstring) (extra : Buffer) :
  well_formed text = true ->
  blength (utf8_encode text) + 6 < 2 ^ 31 ->
  exists data,
    status_response_packet text = Ok data /\
    parseStatusResponse JSON_parse (data ++ extra) =
      match JSON_parse text with
      | inr response => Ok response
      | inl m => Err (Error ("Failed to parse server response: " +:+ m))
      end.
Proof.
  intros Htext Hsize. unfold status_response_packet.
  set (json := utf8_encode text) in *.
  assert (Hjson : 0 <= blength json) by (unfold blength; lia).
  destruct (varintEncode_readVarInt (blength json))
    as (jsonLength & -> & Hlen & HjsonLength); [lia|].
  cbn [bind].
  assert (Hbody : blength ([0] ++ jsonLength ++ json) =
                  1 + blength jsonLength + blength json).
  { unfold blength. rewrite !length_app. cbn [length]. lia. }
  assert (HjsonLength5 : 1 <= blength jsonLength <= 5) by (unfold blength; lia).
  destruct (varintEncode_readVarInt (blength ([0] ++ jsonLength ++ json)))
    as (packetLength & -> & _ & HpacketLength); [lia|].
  cbn [bind]. eexists. split; [reflexivity|].
  rewrite parseStatusResponse_framed.
  - replace (utf8_decode json) with text; [reflexivity|].
    unfold json. rewrite <- (app_nil_r (utf8_encode text)).
    rewrite utf8_decode_encode by assumption. rewrite app_nil_r. reflexivity.
  - intros pre post. rewrite HpacketLength.
    destruct (Z.ltb_spec (blength ([0] ++ jsonLength ++ json)) (2 ^ 31));
      [reflexivity|lia].
  - intros pre post. rewrite HjsonLength.
    destruct (Z.ltb_spec (blength json) (2 ^ 31)); [reflexivity|lia].
Qed.

Lemma parseStatusResponse_complete_witness :
  exists data,
    status_response_packet Sample.two_players_text = Ok data /\
    parseStatusResponse Sample.JSON_parse (data ++ [1; 2; 3]) = Ok Sample.two_players.
Proof.
  apply (parseStatusResponse_complete Sample.JSON_parse Sample.two_players_text
           [1; 2; 3]); [reflexivity|vm_compute; reflexivity].
Defined.

Lemma parseStatusResponse_prefix_incomplete JSON_parse (data : Buffer)
    (packetLength size : Z) (n : nat) :
  readVarInt data 0 = Ok (packetLength, size) ->
  blength data = size + packetLength ->
  (n < length data)%nat ->
  parseStatusResponse JSON_parse (take n data) = Err (Error "Incomplete data").
Proof.
  intros Hlength Hexact Hn. unfold parseStatusResponse.
  unfold readVarInt in *. change (Z.to_nat 0) with 0%nat in *.
  rewrite drop_0 in *.
  rewrite (readVarInt_loop_take _ n _ _ _ _ Hlength).
  destruct (Z.ltb_spec (Z.of_nat n) (size - 0)); [reflexivity|].
  cbn [bind fst snd]. rewrite Z.add_0_l.
  assert (Htake : blength (take n data) = Z.of_nat n)
    by (unfold blength; rewrite length_take; lia).
  unfold blength in Hexact.
  destruct (Z.ltb_spec (blength (take n data)) (size + packetLength));
    [reflexivity|lia].
Qed.

(** No proper prefix of a complete status packet is taken for a packet:
    as long as the buffer is shorter than the length field and the
    declared length, [parseStatusResponse] throws the error of
    incomplete data. *)
Theorem parseStatusResponse_prefix JSON_parse (data : Buffer)
    (packetLength size : Z) (n : nat) :
  readVarInt data 0 = Ok (packetLength, size) ->
  blength data = size + packetLength ->
  (n < length data)%nat ->
  parseStatusResponse JSON_parse (take n data) = Err (Error "Incomplete data").
Proof. apply parseStatusResponse_prefix_incomplete. Qed.

Lemma parseStatusResponse_prefix_witness :
  parseStatusResponse Sample.JSON_parse
    (take 40 (Sample.response Sample.two_players_text)) =
  Err (Error "Incomplete data").
Proof.
  apply (parseStatusResponse_prefix Sample.JSON_parse
           (Sample.response Sample.two_players_text) 78 1 40);
    [vm_compute; reflexivity|vm_compute; reflexivity|vm_compute; lia].
Defined.

(** ** Status packets *)

Lemma port_bytes (port : Z) :
  Buffer_from [js_and (js_shr port 8) 0xFF; js_and port 0xFF] =
    [(port / 256) mod 256; port mod 256].
Proof.
  unfold Buffer_from, js_and, js_shr. cbn [map].
  rewrite !(ToInt32_small 0xFF) by lia.
  change (ToUint32 8 mod 32) with 8. rewrite Z.shiftr_div_pow2 by lia.
  change 255 with (2 ^ 8 - 1). rewrite !land_low by lia.
  change (2 ^ 8) with 256.
  pose proof (ToInt32_range port) as Hrange.
  rewrite (ToInt32_small (ToInt32 port / 256))
    by (change (2 ^ 31) with 2147483648 in *; zlia).
  rewrite !Z.mod_mod by lia.
  unfold ToInt32. change (2 ^ 32) with 4294967296. change (2 ^ 31) with 2147483648.
  destruct (Z.leb_spec 2147483648 (port mod 4294967296));
    f_equal; [zlia| |zlia|]; f_equal; zlia.
Qed.

(** The packet that [createHandshakePacket] returns, part by part. *)
Lemma createHandshakePacket_parts (host : jsstring) (port : Z) :
  exists hostLength packetLength : Buffer,
    varintEncode (Z.of_nat (length host)) = Ok hostLength /\
    let body := [0] ++ [0] ++ hostLength ++ utf8_encode host ++
                [(port / 256) mod 256; port mod 256] ++ [1] in
    varintEncode (blength body) = Ok packetLength /\
    createHandshakePacket host port = Ok (packetLength ++ body).
Proof.
  destruct (varintEncode_returns (Z.of_nat (length host))) as (hostLength & Hhost & _).
  exists hostLength.
  set (body := [0] ++ [0] ++ hostLength ++ utf8_encode host ++
               [(port / 256) mod 256; port mod 256] ++ [1]).
  destruct (varintEncode_returns (blength body)) as (packetLength & Hpacket & _).
  exists packetLength. split; [assumption|]. split; [assumption|].
  unfold createHandshakePacket.
  change (varintEncode (-1)) with (Ok (A := Buffer) [0]).
  change (varintEncode 1) with (Ok (A := Buffer) [1]).
  rewrite Hhost, port_bytes. cbn [bind].
  change (Buffer_from [0]) with [0].
  cbn [concat]. rewrite !app_nil_r.
  fold body. rewrite Hpacket. reflexivity.
Qed.

(** The handshake is framed as it says: its first VarInt is the number
    of bytes that follow it, the byte after that is the packet id 0,
    and the packet ends with the UTF-8 bytes of the host, the port in
    two bytes, most significant first, and the next state 1.  The host
    is a string that the engine can hold. *)
Theorem createHandshakePacket_framing (host : jsstring) (port : Z) :
  Z.of_nat (length host) <= 2 ^ 29 - 24 ->
  exists (packet front : Buffer) (packetLength size : Z),
    createHandshakePacket host port = Ok packet /\
    readVarInt packet 0 = Ok (packetLength, size) /\
    blength packet = size + packetLength /\
    readVarInt packet size = Ok (0, 1) /\
    packet = front ++ utf8_encode host ++ [(port / 256) mod 256; port mod 256; 1].
Proof.
  intros Hhost.
  destruct (createHandshakePacket_parts host port)
    as (hostLength & packetLength & HhostLength & Hbody & Hpacket).
  cbv zeta in *.
  set (body := [0] ++ [0] ++ hostLength ++ utf8_encode host ++
               [(port / 256) mod 256; port mod 256] ++ [1]) in *.
  destruct (varintEncode_returns (Z.of_nat (length host)))
    as (hostLength' & HhostLength' & HhostLen).
  rewrite HhostLength in HhostLength'. injection HhostLength' as <-.
  assert (Hlen : 0 <= blength body < 2 ^ 31).
  { unfold body, blength. rewrite !length_app. cbn [length].
    pose proof (utf8_encode_length host).
    change (2 ^ 29) with 536870912 in Hhost. change (2 ^ 31) with 2147483648. lia. }
  destruct (varintEncode_readVarInt (blength body))
    as (packetLength' & HpacketLength' & _ & Hdec); [lia|].
  rewrite Hbody in HpacketLength'. injection HpacketLength' as <-.
  exists (packetLength ++ body), (packetLength ++ [0] ++ [0] ++ hostLength),
    (blength body), (blength packetLength).
  split; [assumption|]. split; [|split; [|split]].
  - pose proof (Hdec [] body) as Hread.
    destruct (Z.ltb_spec (blength body) (2 ^ 31)); [exact Hread|lia].
  - unfold blength. rewrite length_app. lia.
  - apply readVarInt_zero_byte.
  - unfold body. rewrite <- !app_assoc. reflexivity.
Qed.

Lemma createHandshakePacket_framing_witness :
  exists (packet front : Buffer) (packetLength size : Z),
    createHandshakePacket (js "localhost") 25565 = Ok packet /\
    readVarInt packet 0 = Ok (packetLength, size) /\
    blength packet = size + packetLength /\
    readVarInt packet size = Ok (0, 1) /\
    packet = front ++ utf8_encode (js "localhost") ++ [0x63; 0xDD; 1].
Proof.
  apply (createHandshakePacket_framing (js "localhost") 25565).
  vm_compute. discriminate.
Defined.

(** ** Status session *)

Lemma fold_left_invariant {S E : Type} (step : S -> E -> S) (P : S -> Prop) :
  (forall s ev, P s -> P (step s ev)) ->
  forall evs s, P s -> P (fold_left step evs s).
Proof.
  intros Hstep evs. induction evs as [|ev evs IH]; intros s Hs; [exact Hs|].
  cbn [fold_left]. apply IH, Hstep, Hs.
Qed.

(** Takes a handler apart, branch by branch. *)
Ltac handler_cases :=
  repeat match goal with
         | |- context [match ?x with _ => _ end] => destruct x eqn:?
         end;
  cbn.

Lemma status_step_data JSON_parse S2N host port (s : Status.State) (ev : event) :
  Status.data (Status.step JSON_parse S2N host port s ev) =
    Status.data s ++ match ev with EvData chunk => chunk | _ => [] end.
Proof.
  destruct ev; cbn [Status.step];
    unfold Status.on_connect, Status.on_data, Status.on_end, Status.on_close,
      Status.on_timeout, Status.on_error, Status.with_out;
    handler_cases; rewrite ?app_nil_r; reflexivity.
Qed.

(** The accumulation buffer of the status session holds the bytes of all
    the chunks that have come, in their order, whatever other events
    came between them, and whether or not a response has been parsed. *)
Theorem status_data_accumulates JSON_parse S2N (host : jsstring) (port : Z)
    (evs : list event) :
  Status.data (Status.run JSON_parse S2N host port evs) = received evs.
Proof.
  unfold Status.run.
  change (received evs) with (Status.data Status.init ++ received evs).
  generalize Status.init. induction evs as [|ev evs IH]; intros s.
  - cbn. rewrite app_nil_r. reflexivity.
  - cbn [fold_left]. rewrite IH, status_step_data. unfold received.
    cbn [flat_map]. rewrite <- app_assoc. reflexivity.
Qed.

Lemma writes_snoc (ops : list socket_op) (op : socket_op) :
  writes (ops ++ [op]) = writes ops ++ writes [op].
Proof. unfold writes. apply flat_map_app. Qed.

Lemma status_step_writes JSON_parse S2N host port (handshake : Buffer)
    (s : Status.State) (ev : event) :
  createHandshakePacket host port = Ok handshake ->
  writes (socket (Status.out (Status.step JSON_parse S2N host port s ev))) =
    writes (socket (Status.out s)) ++
    match ev with EvConnect => [handshake; [1; 0]] | _ => [] end.
Proof.
  intros Hhandshake.
  destruct ev; cbn [Status.step];
    unfold Status.on_connect, Status.on_data, Status.on_end, Status.on_close,
      Status.on_timeout, Status.on_error, Status.with_out;
    rewrite ?Hhandshake;
    change createStatusRequestPacket with (Ok (A := Buffer) [1; 0]);
    cbn beta iota; handler_cases; unfold reject, resolve;
    cbn; rewrite ?writes_snoc; cbn; rewrite ?app_nil_r, <- ?app_assoc; reflexivity.
Qed.

(** The status session writes to its socket when it is connected, and
    only then: the handshake and, right after it, the status request
    [[1, 0]].  No other event makes it write. *)
Theorem status_writes JSON_parse S2N (host : jsstring) (port : Z) :
  exists handshake,
    createHandshakePacket host port = Ok handshake /\
    forall evs : list event,
      writes (socket (Status.out (Status.run JSON_parse S2N host port evs))) =
        flat_map (fun ev => match ev with
                            | EvConnect => [handshake; [1; 0]]
                            | _ => []
                            end) evs.
Proof.
  destruct (createHandshakePacket_parts host port)
    as (hostLength & packetLength & _ & _ & Hhandshake).
  eexists. split; [exact Hhandshake|]. intros evs. unfold Status.run.
  match goal with
  | |- _ = ?rhs => change rhs with (writes (socket (Status.out Status.init)) ++ rhs)
  end.
  generalize Status.init. induction evs as [|ev evs IH]; intros s.
  - cbn. rewrite app_nil_r. reflexivity.
  - cbn [fold_left flat_map].
    rewrite IH, (status_step_writes _ _ _ _ _ _ _ Hhandshake), <- app_assoc.
    reflexivity.
Qed.

(** The handler on a chunk that leaves the buffer incomplete: nothing
    changes but the buffer. *)
Lemma status_on_data_incomplete JSON_parse S2N (s : Status.State) (chunk : Buffer) :
  parseStatusResponse JSON_parse (Status.data s ++ chunk) =
    Err (Error "Incomplete data") ->
  Status.on_data JSON_parse S2N chunk s =
    Status.mkState (Status.data s ++ chunk) (Status.hasReceivedResponse s)
      (Status.out s).
Proof. intros Hparse. unfold Status.on_data. rewrite Hparse. reflexivity. Qed.

(** The handler on a chunk that completes the buffer. *)
Lemma status_on_data_complete JSON_parse S2N (s : Status.State) (chunk : Buffer)
    (result result' : value) :
  parseStatusResponse JSON_parse (Status.data s ++ chunk) = Ok result ->
  Status.augment S2N result = Ok result' ->
  Status.on_data JSON_parse S2N chunk s =
    Status.mkState (Status.data s ++ chunk) true
      (resolve result' (sock SockEnd (Status.out s))).
Proof.
  intros Hparse Haugment. unfold Status.on_data. rewrite Hparse, Haugment.
  reflexivity.
Qed.

Section Reassembly.

Variable JSON_parse : jsstring -> string + value.
Variable S2N : jsstring -> bool.
Variables (host : jsstring) (port : Z).
Variables (response : Buffer) (packetLength size : Z) (result result' : value).

Hypothesis Hlength : readVarInt response 0 = Ok (packetLength, size).
Hypothesis Hexact : blength response = size + packetLength.
Hypothesis Hparse : parseStatusResponse JSON_parse response = Ok result.
Hypothesis Haugment : Status.augment S2N result = Ok result'.

(** The session while the chunks of the response come: its promise is
    pending before the buffer holds the response, and resolved from
    then on. *)
Lemma status_chunks (chunks : list Buffer) :
  forall s : Status.State,
    Status.data s ++ concat chunks = response ->
    (Status.data s <> response -> promise (Status.out s) = None) ->
    (Status.data s = response ->
     promise (Status.out s) = Some (Resolved result')) ->
    promise (Status.out
      (fold_left (Status.step JSON_parse S2N host port) (map EvData chunks) s)) =
      Some (Resolved result').
Proof using Hlength Hexact Hparse Haugment.
  induction chunks as [|chunk chunks IH]; intros s Hdata Hbefore Hafter.
  - cbn in *. rewrite app_nil_r in Hdata. auto.
  - cbn [map fold_left Status.step]. cbn [concat] in Hdata.
    rewrite app_assoc in Hdata.
    destruct (decide (Status.data s ++ chunk = response)) as [Hfull|Hpart].
    + rewrite (status_on_data_complete _ _ _ _ result result')
        by (rewrite ?Hfull; assumption).
      apply IH; cbn [Status.data Status.out]; [assumption|contradiction|].
      intros _. unfold resolve, settle. cbn [promise sock].
      destruct (promise (Status.out s)) as [first|] eqn:Hfirst; [|reflexivity].
      destruct (decide (Status.data s = response)) as [Hs|Hs].
      * apply Hafter, Hs.
      * discriminate (Hbefore Hs).
    + assert (Hshort : (length (Status.data s ++ chunk) < length response)%nat).
      { destruct (concat chunks) as [|b rest] eqn:Hrest.
        - rewrite app_nil_r in Hdata. contradiction.
        - rewrite <- Hdata, !length_app. cbn [length]. lia. }
      assert (Hprefix : Status.data s ++ chunk =
                        take (length (Status.data s ++ chunk)) response).
      { rewrite <- Hdata. rewrite take_app_length. reflexivity. }
      rewrite status_on_data_incomplete.
      2:{ rewrite Hprefix.
          apply (parseStatusResponse_prefix_incomplete _ _ _ _ _ Hlength Hexact Hshort). }
      apply IH; cbn [Status.data Status.out]; [assumption| |contradiction].
      intros _. apply Hbefore. intros Hs. rewrite Hs in Hshort.
      rewrite length_app in Hshort. lia.
Qed.

(** The session while chunks come that leave the response incomplete:
    they are put into the buffer and nothing else happens, no call on
    the socket and none of [resolve] or [reject]. *)
Lemma status_chunks_waiting (before : list Buffer) :
  forall (s : Status.State) (rest : Buffer),
    Status.data s ++ concat before ++ rest = response ->
    rest <> [] ->
    fold_left (Status.step JSON_parse S2N host port) (map EvData before) s =
      Status.mkState (Status.data s ++ concat before)
        (Status.hasReceivedResponse s) (Status.out s).
Proof using Hlength Hexact.
  induction before as [|chunk before IH]; intros s rest Hdata Hrest.
  - cbn. rewrite app_nil_r. destruct s; reflexivity.
  - cbn [map fold_left Status.step concat] in *.
    rewrite <- !app_assoc in Hdata.
    rewrite status_on_data_incomplete.
    + rewrite (IH _ rest); cbn [Status.data Status.hasReceivedResponse Status.out].
      * rewrite <- app_assoc. reflexivity.
      * rewrite <- app_assoc. exact Hdata.
      * exact Hrest.
    + assert (Hshort : (length (Status.data s ++ chunk) < length response)%nat).
      { rewrite <- Hdata, !length_app. destruct rest; [contradiction|].
        cbn [length]. lia. }
      replace (Status.data s ++ chunk)
        with (take (length (Status.data s ++ chunk)) response)
        by (rewrite <- Hdata, app_assoc; apply take_app_length).
      apply (parseStatusResponse_prefix_incomplete _ _ _ _ _ Hlength Hexact Hshort).
Qed.

End Reassembly.

Lemma status_on_connect_pending (host : jsstring) (port : Z) :
  Status.data (Status.on_connect host port Status.init) = [] /\
  promise (Status.out (Status.on_connect host port Status.init)) = None.
Proof.
  destruct (createHandshakePacket_parts host port)
    as (hostLength & packetLength & _ & _ & Hhandshake).
  unfold Status.on_connect. rewrite Hhandshake.
  change createStatusRequestPacket with (Ok (A := Buffer) [1; 0]).
  split; reflexivity.
Qed.

(** Reassembly: however a complete status response is cut into chunks,
    the session that is connected and then receives the chunks in order
    resolves with the status that the whole response gives, augmented.
    The chunks before the one that completes the response only make the
    session wait: after each of them the buffer holds the bytes
    received, the socket has seen the two writes of the connection and
    nothing else, and neither [resolve] nor [reject] has been called.
    The chunk that completes the response makes the session end the
    socket and call [resolve], for the first time.  The response is
    complete when its length field says how many bytes follow it. *)
Theorem status_reassembly JSON_parse S2N (host : jsstring) (port : Z)
    (response : Buffer) (chunks : list Buffer) (packetLength size : Z)
    (result result' : value) :
  readVarInt response 0 = Ok (packetLength, size) ->
  blength response = size + packetLength ->
  parseStatusResponse JSON_parse response = Ok result ->
  Status.augment S2N result = Ok result' ->
  concat chunks = response ->
  exists handshake,
    createHandshakePacket host port = Ok handshake /\
    let run := Status.run JSON_parse S2N host port in
    let sent := [SockWrite handshake; SockWrite [1; 0]] in
    promise (Status.out (run (EvConnect :: map EvData chunks))) =
      Some (Resolved result') /\
    (forall before after,
       chunks = before ++ after -> concat before <> response ->
       run (EvConnect :: map EvData before) =
         Status.mkState (concat before) false (mkIo sent None [])) /\
    (forall before chunk after,
       chunks = before ++ chunk :: after -> concat before <> response ->
       concat before ++ chunk = response ->
       run (EvConnect :: map EvData (before ++ [chunk])) =
         Status.mkState response true
           (mkIo (sent ++ [SockEnd]) (Some (Resolved result'))
              [Resolved result'])).
Proof.
  intros Hlength Hexact Hparse Haugment Hchunks.
  destruct (status_on_connect_pending host port) as [Hdata Hpending].
  destruct (createHandshakePacket_parts host port)
    as (hostLength & handshakeLength & _ & _ & Hhandshake).
  eexists. split; [exact Hhandshake|]. cbv zeta.
  assert (Hconnect : Status.on_connect host port Status.init =
            Status.mkState [] false
              (mkIo [SockWrite (handshakeLength ++ [0] ++ [0] ++ hostLength ++
                                utf8_encode host ++
                                [(port / 256) mod 256; port mod 256] ++ [1]);
                     SockWrite [1; 0]] None [])).
  { unfold Status.on_connect. rewrite Hhandshake.
    change createStatusRequestPacket with (Ok (A := Buffer) [1; 0]). reflexivity. }
  assert (Hwaiting : forall before after,
            chunks = before ++ after -> concat before <> response ->
            Status.run JSON_parse S2N host port (EvConnect :: map EvData before) =
              Status.mkState (concat before) false
                (mkIo [SockWrite (handshakeLength ++ [0] ++ [0] ++ hostLength ++
                                  utf8_encode host ++
                                  [(port / 256) mod 256; port mod 256] ++ [1]);
                       SockWrite [1; 0]] None [])).
  { intros before after Hsplit Hbefore.
    unfold Status.run. cbn [fold_left Status.step]. rewrite Hconnect.
    rewrite (status_chunks_waiting JSON_parse S2N host port response
               packetLength size Hlength Hexact before _ (concat after)).
    - reflexivity.
    - cbn [Status.data app]. rewrite <- Hchunks, Hsplit, concat_app. reflexivity.
    - intros Hnil. apply Hbefore.
      rewrite <- Hchunks, Hsplit, concat_app, Hnil, app_nil_r. reflexivity. }
  split; [|split].
  - unfold Status.run. cbn [fold_left Status.step].
    apply (status_chunks JSON_parse S2N host port response packetLength size
             result result' Hlength Hexact Hparse Haugment).
    + rewrite Hdata. exact Hchunks.
    + intros _. exact Hpending.
    + rewrite Hdata. intros <-. discriminate Hlength.
  - exact Hwaiting.
  - intros before chunk after Hsplit Hbefore Hfull.
    pose proof (Hwaiting before (chunk :: after) Hsplit Hbefore) as Hstate.
    unfold Status.run in *. rewrite map_app, app_comm_cons.
    rewrite fold_left_app, Hstate. cbn [map fold_left Status.step].
    rewrite (status_on_data_complete _ _ _ _ result result');
      cbn [Status.data]; rewrite ?Hfull; try assumption.
    reflexivity.
Qed.

Lemma status_reassembly_witness :
  let response := Sample.response Sample.two_players_text in
  let chunks := [take 1 response; []; take 30 (drop 1 response);
                 drop 31 response] in
  exists result' handshake,
    createHandshakePacket (js "localhost") 25565 = Ok handshake /\
    let run := Status.run Sample.JSON_parse Sample.StringToNumber_positive
                 (js "localhost") 25565 in
    let sent := [SockWrite handshake; SockWrite [1; 0]] in
    promise (Status.out (run (EvConnect :: map EvData chunks))) =
      Some (Resolved result') /\
    (forall before after,
       chunks = before ++ after -> concat before <> response ->
       run (EvConnect :: map EvData before) =
         Status.mkState (concat before) false (mkIo sent None [])) /\
    (forall before chunk after,
       chunks = before ++ chunk :: after -> concat before <> response ->
       concat before ++ chunk = response ->
       run (EvConnect :: map EvData (before ++ [chunk])) =
         Status.mkState response true
           (mkIo (sent ++ [SockEnd]) (Some (Resolved result'))
              [Resolved result'])).
Proof.
  cbv zeta. eexists.
  refine (status_reassembly Sample.JSON_parse Sample.StringToNumber_positive
            (js "localhost") 25565 (Sample.response Sample.two_players_text)
            _ 78 1 Sample.two_players _ _ _ _ _ _).
  - vm_compute. reflexivity.
  - vm_compute. reflexivity.
  - vm_compute. reflexivity.
  - vm_compute. reflexivity.
  - vm_compute. reflexivity.
Defined.

(** ** Augmentation of the status *)

Ltac bind_cases :=
  repeat match goal with
         | |- bind ?c _ = Ok _ -> _ =>
             let x := fresh "x" in
             destruct c as [x|]; cbn [bind]; [|discriminate]
         end.

(** What [augment] returns is the parsed status with [online] assigned
    and, possibly, [players] assigned after that. *)
Lemma augment_inv S2N (result result' : value) :
  Status.augment S2N result = Ok result' ->
  exists r1,
    set result (js "online") (VBool true) = Ok r1 /\
    (result' = r1 \/ exists players, set r1 (js "players") players = Ok result').
Proof.
  unfold Status.augment.
  destruct (set result (js "online") (VBool true)) as [r1|]; cbn [bind];
    [|discriminate].
  exists r1. split; [reflexivity|]. revert H.
  match goal with
  | |- bind ?c _ = Ok _ -> _ => destruct c as [[|]|]; cbn [bind]; [| |discriminate]
  end.
  - bind_cases. intros H. right. eexists. exact H.
  - intros [= <-]. left. reflexivity.
Qed.

Lemma get_set_eq (x x' : value) (k : jsstring) (v : value) :
  set x k v = Ok x' -> get x' k = Ok v.
Proof.
  destruct x; cbn; try discriminate; intros [= <-]; cbn;
    rewrite lookup_prop_set_prop_eq; reflexivity.
Qed.

Lemma get_set_ne (x x' : value) (k k' : jsstring) (v : value) :
  set x k' v = Ok x' -> k <> k' -> get x' k = get x k.
Proof.
  destruct x; cbn; try discriminate; intros [= <-] Hne; cbn;
    rewrite lookup_prop_set_prop_ne by assumption; reflexivity.
Qed.

Lemma augment_online S2N (result result' : value) :
  Status.augment S2N result = Ok result' ->
  get result' (js "online") = Ok (VBool true).
Proof.
  intros (r1 & Hr1 & [-> | [players Hplayers]])%augment_inv.
  - apply (get_set_eq _ _ _ _ Hr1).
  - rewrite (get_set_ne _ _ _ _ _ Hplayers) by discriminate.
    apply (get_set_eq _ _ _ _ Hr1).
Qed.

(** The status that the augmentation returns has [online] set to
    [true], and every property of the parsed status other than [online]
    and [players] as it was. *)
Theorem augment_keeps S2N (result result' : value) :
  Status.augment S2N result = Ok result' ->
  get result' (js "online") = Ok (VBool true) /\
  forall k : jsstring,
    k <> js "online" -> k <> js "players" -> get result' k = get result k.
Proof.
  intros Haugment. split; [exact (augment_online _ _ _ Haugment)|].
  intros k Honline Hplayers.
  apply augment_inv in Haugment as (r1 & Hr1 & [-> | [players Hset]]).
  - apply (get_set_ne _ _ _ _ _ Hr1 Honline).
  - rewrite (get_set_ne _ _ _ _ _ Hset Hplayers).
    apply (get_set_ne _ _ _ _ _ Hr1 Honline).
Qed.

Lemma augment_keeps_witness :
  exists result',
    Status.augment Sample.StringToNumber_positive
      (VObj [(js "version", VStr (js "1.20")); (js "players", VNull)]) = Ok result' /\
    get result' (js "online") = Ok (VBool true) /\
    get result' (js "version") = Ok (VStr (js "1.20")).
Proof.
  eexists. split; [reflexivity|].
  split.
  - apply (augment_keeps Sample.StringToNumber_positive
             (VObj [(js "version", VStr (js "1.20")); (js "players", VNull)])).
    reflexivity.
  - reflexivity.
Defined.

(** A JSON text that is not an object or an array, [null] or a number
    or a string, makes the status session reject with a [TypeError],
    the response counting as received. *)
Theorem status_not_an_object JSON_parse S2N (s : Status.State) (chunk : Buffer)
    (result : value) :
  promise (Status.out s) = None ->
  parseStatusResponse JSON_parse (Status.data s ++ chunk) = Ok result ->
  ~ is_object result ->
  exists m,
    promise (Status.out (Status.on_data JSON_parse S2N chunk s)) =
      Some (Rejected (TypeError m)) /\
    Status.hasReceivedResponse (Status.on_data JSON_parse S2N chunk s) = true.
Proof.
  intros Hpending Hparse Hobject.
  assert (Haugment : exists m,
            Status.augment S2N result = Err (TypeError m) /\
            String.eqb m "Incomplete data" = false).
  { destruct result; cbn in Hobject; try tauto; eexists; split; reflexivity. }
  destruct Haugment as (m & Haugment & Hm). exists m. split.
  - rewrite (status_on_data_parsed _ _ _ _ _ Hpending Hparse), Haugment.
    cbn [message]. rewrite Hm. reflexivity.
  - unfold Status.on_data. rewrite Hparse, Haugment. cbn [message].
    rewrite Hm. reflexivity.
Qed.

Lemma status_not_an_object_witness :
  exists m,
    promise (Status.out
      (Status.on_data (fun _ => inr VNull) Sample.StringToNumber_positive
         [5; 0; 4; 110; 117; 108; 108] Status.init)) =
      Some (Rejected (TypeError m)).
Proof.
  destruct (status_not_an_object (fun _ => inr VNull) Sample.StringToNumber_positive
              Status.init [5; 0; 4; 110; 117; 108; 108] VNull)
    as (m & Hm & _); [reflexivity|reflexivity|cbn; tauto|].
  exists m. exact Hm.
Defined.

(** What one event adds to the calls of [resolve] and [reject] of the
    status session. *)
Lemma status_step_calls JSON_parse S2N host port (s : Status.State) (ev : event) :
  exists new,
    calls (Status.out (Status.step JSON_parse S2N host port s ev)) =
      calls (Status.out s) ++ new /\
    (Status.hasReceivedResponse s = true ->
     Status.hasReceivedResponse (Status.step JSON_parse S2N host port s ev) = true) /\
    forall r, In (Resolved r) new ->
      (exists result, Status.augment S2N result = Ok r) /\
      Status.hasReceivedResponse (Status.step JSON_parse S2N host port s ev) = true.
Proof.
  destruct ev; cbn [Status.step];
    unfold Status.on_connect, Status.on_data, Status.on_end, Status.on_close,
      Status.on_timeout, Status.on_error, Status.with_out;
    handler_cases; unfold reject, resolve, settle, sock; cbn;
    eexists; (split; [first [reflexivity|symmetry; apply app_nil_r]|]);
    (split; [auto|]); intros r Hin; cbn in Hin;
    repeat (destruct Hin as [Hin|Hin]; [try discriminate Hin|]); try contradiction.
  injection Hin as <-. split; [eauto|reflexivity].
Qed.

(** Whatever events have come, a status that the session has resolved
    its promise with has [online] set to [true], and the session counts
    the response as received, so that the end and the close of the
    connection reject nothing. *)
Theorem status_resolved_online JSON_parse S2N (host : jsstring) (port : Z)
    (evs : list event) (r : value) :
  promise (Status.out (Status.run JSON_parse S2N host port evs)) =
    Some (Resolved r) ->
  get r (js "online") = Ok (VBool true) /\
  Status.hasReceivedResponse (Status.run JSON_parse S2N host port evs) = true.
Proof.
  intros Hpromise.
  assert (Hfirst : first_call_wins
                     (Status.out (Status.run JSON_parse S2N host port evs))).
  { apply (io_trace_calls (Status.out Status.init)); [|reflexivity].
    apply fold_left_trace. apply status_step_trace. }
  unfold first_call_wins in Hfirst. rewrite Hpromise in Hfirst.
  assert (Hin : In (Resolved r)
                  (calls (Status.out (Status.run JSON_parse S2N host port evs)))).
  { destruct (calls _) as [|c cs]; [discriminate Hfirst|].
    injection Hfirst as <-. left. reflexivity. }
  clear Hfirst Hpromise. revert r Hin. unfold Status.run.
  apply (fold_left_invariant (Status.step JSON_parse S2N host port)
           (fun s => forall r, In (Resolved r) (calls (Status.out s)) ->
                      get r (js "online") = Ok (VBool true) /\
                      Status.hasReceivedResponse s = true));
    [|intros r []].
  intros s ev IH r Hin.
  destruct (status_step_calls JSON_parse S2N host port s ev)
    as (new & Hcalls & Hmono & Hnew).
  rewrite Hcalls in Hin. apply in_app_or in Hin as [Hold|Hnow].
  - destruct (IH r Hold) as [Honline Hreceived]. auto.
  - destruct (Hnew r Hnow) as [[result Haugment] Hreceived].
    split; [exact (augment_online _ _ _ Haugment)|exact Hreceived].
Qed.

Lemma status_resolved_online_witness :
  let response := Sample.response Sample.no_players_text in
  let s := Status.run Sample.JSON_parse Sample.StringToNumber_positive
             (js "localhost") 25565 [EvConnect; EvData response; EvEnd; EvClose] in
  Status.hasReceivedResponse s = true.
Proof.
  cbv zeta.
  refine (proj2 (status_resolved_online Sample.JSON_parse
                   Sample.StringToNumber_positive (js "localhost") 25565
                   [EvConnect; EvData (Sample.response Sample.no_players_text);
                    EvEnd; EvClose] _ _)).
  vm_compute. reflexivity.
Defined.


(** ** RCON packets that the server sends *)

(** What [parseRconPacket] makes of a packet whose length field counts
    the bytes of its body: the payload is the body without its last two
    bytes, and what follows the packet is not looked at. *)
Lemma parseRconPacket_body (type id : Z) (body extra : Buffer) :
  is_int32 type -> is_int32 id -> is_int32 (4 + 4 + blength body) ->
  parseRconPacket
    ((le32 (4 + 4 + blength body) ++ le32 id ++ le32 type ++ body) ++ extra) =
  Ok (mkRconPacket (4 + 4 + blength body) id type
        (utf8_decode (take (length body - 2) body))).
Proof.
  intros Htype Hid Hlength.
  set (length := 4 + 4 + blength body) in *.
  unfold parseRconPacket.
  set (data := (le32 length ++ le32 id ++ le32 type ++ body) ++ extra).
  assert (Hdata : blength data =
                  12 + Z.of_nat (List.length body) + Z.of_nat (List.length extra)).
  { unfold data, blength. rewrite !length_app. cbn [List.length le32]. lia. }
  assert (Hlen : length = 8 + Z.of_nat (List.length body))
    by (unfold length, blength; lia).
  destruct (Z.ltb_spec (blength data) 12); [lia|].
  replace (readInt32LE data 0) with (Ok length).
  2:{ symmetry. unfold data. rewrite <- app_assoc.
      apply (readInt32LE_app [] _ length Hlength). }
  replace (readInt32LE data 4) with (Ok id).
  2:{ symmetry. unfold data. rewrite <- !app_assoc.
      apply (readInt32LE_app (le32 length) _ id Hid). }
  replace (readInt32LE data 8) with (Ok type).
  2:{ symmetry. unfold data. rewrite <- !app_assoc.
      rewrite (app_assoc (le32 length)).
      apply (readInt32LE_app (le32 length ++ le32 id) _ type Htype). }
  cbn [bind].
  destruct (Z.ltb_spec (blength data) (4 + length)); [lia|].
  do 2 f_equal.
  destruct (decide (List.length body < 2)%nat) as [Hshort|Hlong].
  - replace (List.length body - 2)%nat with 0%nat by lia. cbn [take].
    unfold Buffer_toString. case_cmp; try lia; reflexivity.
  - replace (4 + length - 2)
      with (blength (le32 length ++ le32 id ++ le32 type) +
            blength (take (List.length body - 2) body))
      by (unfold blength; rewrite length_take, !length_app; cbn [List.length le32]; lia).
    change 12 with (blength (le32 length ++ le32 id ++ le32 type)).
    unfold data.
    replace ((le32 length ++ le32 id ++ le32 type ++ body) ++ extra)
      with ((le32 length ++ le32 id ++ le32 type) ++
            take (List.length body - 2) body ++
            (drop (List.length body - 2) body ++ extra)).
    + apply Buffer_toString_slice.
    + rewrite (app_assoc (take _ body)), take_drop, <- !app_assoc. reflexivity.
Qed.

Lemma parseRconPacket_server_packet_ok (id type : Z) (payload : jsstring)
    (extra : Buffer) :
  is_int32 id -> is_int32 type ->
  Z.of_nat (length payload) <= 2 ^ 29 - 24 ->
  well_formed payload = true ->
  parseRconPacket (rcon_server_packet id type payload ++ extra) =
    Ok (mkRconPacket (4 + 4 + blength (utf8_encode payload ++ [0; 0]))
          id type payload).
Proof.
  intros Hid Htype Hlen Hpayload. unfold rcon_server_packet.
  rewrite parseRconPacket_body; [|assumption..|].
  - do 3 f_equal. rewrite length_app. cbn [length].
    replace (length (utf8_encode payload) + 2 - 2)%nat
      with (length (utf8_encode payload)) by lia.
    rewrite take_app_length.
    rewrite <- (app_nil_r (utf8_encode payload)), utf8_decode_encode by assumption.
    apply app_nil_r.
  - unfold is_int32, blength. rewrite length_app. cbn [length].
    pose proof (utf8_encode_length payload).
    change (2 ^ 29) with 536870912 in Hlen. change (2 ^ 31) with 2147483648. lia.
Qed.

(** A packet as the protocol has it, with a payload that is well formed
    and two NUL bytes after it, is parsed into its length, its request
    id, its type and its payload, whole; bytes that come after the
    packet in the same chunk are not looked at. *)
Theorem parseRconPacket_server_packet (id type : Z) (payload : jsstring)
    (extra : Buffer) :
  is_int32 id -> is_int32 type ->
  Z.of_nat (length payload) <= 2 ^ 29 - 24 ->
  well_formed payload = true ->
  parseRconPacket (rcon_server_packet id type payload ++ extra) =
    Ok (mkRconPacket (4 + 4 + blength (utf8_encode payload ++ [0; 0]))
          id type payload).
Proof. apply parseRconPacket_server_packet_ok. Qed.

Lemma parseRconPacket_server_packet_witness :
  parseRconPacket (rcon_server_packet 0x456 0 (js "Saved the game") ++ [1; 2]) =
    Ok (mkRconPacket 24 0x456 0 (js "Saved the game")).
Proof.
  apply (parseRconPacket_server_packet 0x456 0 (js "Saved the game") [1; 2]);
    [unfold is_int32; lia|unfold is_int32; lia|vm_compute; discriminate|reflexivity].
Defined.

(** ** RCON session *)

Lemma server_packet_length_int32 (payload : jsstring) :
  Z.of_nat (length payload) <= 2 ^ 29 - 24 ->
  is_int32 (4 + 4 + blength (utf8_encode payload ++ [0; 0])).
Proof.
  intros Hlen. unfold is_int32, blength. rewrite length_app. cbn [length].
  pose proof (utf8_encode_length payload).
  change (2 ^ 29) with 536870912 in Hlen. change (2 ^ 31) with 2147483648. lia.
Qed.

Lemma parseRconPacket_server_id (id type : Z) (payload : jsstring) :
  is_int32 id -> is_int32 type ->
  Z.of_nat (length payload) <= 2 ^ 29 - 24 ->
  exists packetInfo,
    parseRconPacket (rcon_server_packet id type payload) = Ok packetInfo /\
    pkt_id packetInfo = id.
Proof.
  intros Hid Htype Hlen. unfold rcon_server_packet.
  pose proof (parseRconPacket_body type id (utf8_encode payload ++ [0; 0]) []
                Htype Hid (server_packet_length_int32 payload Hlen)) as Hparse.
  rewrite app_nil_r in Hparse. rewrite Hparse. eexists. split; reflexivity.
Qed.

Lemma rcon_on_connect_ok (password : jsstring) (authPacket : Buffer)
    (s : Rcon.State) :
  createRconPacket 0x03 0x123 password = Ok authPacket ->
  Rcon.on_connect password s = Rcon.with_out (sock (SockWrite authPacket)) s.
Proof. intros H. unfold Rcon.on_connect. rewrite H. reflexivity. Qed.

(** The handler on the packet that grants the authentication. *)
Lemma rcon_on_data_granted (command : jsstring) (data commandPacket : Buffer)
    (packetInfo : RconPacket) (s : Rcon.State) :
  Rcon.authenticated s = false ->
  parseRconPacket data = Ok packetInfo -> pkt_id packetInfo = 0x123 ->
  createRconPacket 0x02 0x456 command = Ok commandPacket ->
  Rcon.on_data command data s =
    Rcon.mkState true (Rcon.responseData s)
      (sock (SockWrite commandPacket) (Rcon.out s)).
Proof.
  intros Hs Hparse Hid Hcommand. unfold Rcon.on_data.
  rewrite Hparse, Hs, Hid, Hcommand. reflexivity.
Qed.

(** The handler on the packet that answers the command. *)
Lemma rcon_on_data_answer (command : jsstring) (data : Buffer)
    (packetInfo : RconPacket) (s : Rcon.State) :
  Rcon.authenticated s = true ->
  parseRconPacket data = Ok packetInfo -> pkt_id packetInfo = 0x456 ->
  Rcon.on_data command data s =
    Rcon.mkState true (Rcon.responseData s ++ pkt_payload packetInfo)
      (resolve (Rcon.responseData s ++ pkt_payload packetInfo)
         (sock SockEnd (Rcon.out s))).
Proof.
  intros Hs Hparse Hid. unfold Rcon.on_data.
  rewrite Hparse, Hs, Hid. reflexivity.
Qed.

(** The exchange that succeeds.  The session is connected and writes the
    authentication packet; the server answers with a packet that has
    the id [0x123] and the session writes the command packet; the
    server answers with a packet that has the id [0x456] and a
    well-formed payload: the session ends the socket and resolves with
    that payload. *)
Theorem rcon_exchange (password command : jsstring) (type1 type2 : Z)
    (payload1 payload : jsstring) :
  Z.of_nat (length password) <= 2 ^ 29 - 24 ->
  Z.of_nat (length command) <= 2 ^ 29 - 24 ->
  Z.of_nat (length payload1) <= 2 ^ 29 - 24 ->
  Z.of_nat (length payload) <= 2 ^ 29 - 24 ->
  is_int32 type1 -> is_int32 type2 ->
  well_formed payload = true ->
  exists authPacket commandPacket,
    createRconPacket 0x03 0x123 password = Ok authPacket /\
    createRconPacket 0x02 0x456 command = Ok commandPacket /\
    let s := Rcon.run password command
               [EvConnect; EvData (rcon_server_packet 0x123 type1 payload1);
                EvData (rcon_server_packet 0x456 type2 payload)] in
    socket (Rcon.out s) = [SockWrite authPacket; SockWrite commandPacket; SockEnd] /\
    promise (Rcon.out s) = Some (Resolved payload).
Proof.
  intros Hpassword Hcommand Hpayload1 Hpayload Htype1 Htype2 Hwf.
  assert (H123 : is_int32 0x123) by (unfold is_int32; lia).
  assert (H456 : is_int32 0x456) by (unfold is_int32; lia).
  assert (H3 : is_int32 0x03) by (unfold is_int32; lia).
  assert (H2 : is_int32 0x02) by (unfold is_int32; lia).
  pose proof (createRconPacket_ok 0x03 0x123 password H3 H123
                (payload_length_int32 password Hpassword)) as Hauth.
  pose proof (createRconPacket_ok 0x02 0x456 command H2 H456
                (payload_length_int32 command Hcommand)) as Hcmd.
  eexists _, _. split; [exact Hauth|]. split; [exact Hcmd|].
  cbv zeta. unfold Rcon.run. cbn [fold_left Rcon.step].
  rewrite (rcon_on_connect_ok _ _ _ Hauth).
  unfold Rcon.with_out, Rcon.init.
  cbn [Rcon.authenticated Rcon.responseData Rcon.out].
  destruct (parseRconPacket_server_id 0x123 type1 payload1 H123 Htype1 Hpayload1)
    as (info1 & Hparse1 & Hid1).
  rewrite (rcon_on_data_granted command _ _ _ (Rcon.mkState false [] _)
             eq_refl Hparse1 Hid1 Hcmd).
  cbn [Rcon.authenticated Rcon.responseData Rcon.out].
  pose proof (parseRconPacket_server_packet_ok 0x456 type2 payload [] H456 Htype2
                Hpayload Hwf) as Hparse2.
  rewrite app_nil_r in Hparse2.
  rewrite (rcon_on_data_answer command _ _ (Rcon.mkState true [] _)
             eq_refl Hparse2 eq_refl).
  split; reflexivity.
Qed.

Lemma rcon_exchange_witness :
  exists authPacket commandPacket,
    createRconPacket 0x03 0x123 (js "pw") = Ok authPacket /\
    createRconPacket 0x02 0x456 (js "save-all") = Ok commandPacket /\
    let s := Rcon.run (js "pw") (js "save-all")
               [EvConnect; EvData (rcon_server_packet 0x123 2 []);
                EvData (rcon_server_packet 0x456 0 (js "Saved the game"))] in
    socket (Rcon.out s) = [SockWrite authPacket; SockWrite commandPacket; SockEnd] /\
    promise (Rcon.out s) = Some (Resolved (js "Saved the game")).
Proof.
  apply (rcon_exchange (js "pw") (js "save-all") 2 0 [] (js "Saved the game"));
    try (vm_compute; discriminate); try (unfold is_int32; lia); reflexivity.
Defined.

Lemma in_writes_snoc (ops : list socket_op) (op : socket_op) (b : Buffer) :
  In b (writes (ops ++ [op])) <-> In b (writes ops) \/ op = SockWrite b.
Proof.
  rewrite writes_snoc, in_app_iff. destruct op; cbn; intuition congruence.
Qed.

Ltac rcon_handlers :=
  unfold Rcon.on_connect, Rcon.on_data, Rcon.on_end, Rcon.on_close,
    Rcon.on_timeout, Rcon.on_error, Rcon.with_out.

Lemma rcon_writes_inv (password command : jsstring) (evs : list event)
    (b : Buffer) :
  In b (writes (socket (Rcon.out (Rcon.run password command evs)))) ->
  createRconPacket 0x03 0x123 password = Ok b \/
  Rcon.authenticated (Rcon.run password command evs) = true /\
  createRconPacket 0x02 0x456 command = Ok b.
Proof.
  revert b. unfold Rcon.run.
  apply (fold_left_invariant (Rcon.step password command)
           (fun s => forall b,
              In b (writes (socket (Rcon.out s))) ->
              createRconPacket 0x03 0x123 password = Ok b \/
              Rcon.authenticated s = true /\
              createRconPacket 0x02 0x456 command = Ok b)).
  - intros s ev IH b. destruct ev; cbn [Rcon.step]; rcon_handlers;
      cbn beta iota zeta; handler_cases; unfold reject, resolve, settle, sock;
      cbn [socket Rcon.out Rcon.authenticated Rcon.responseData];
      rewrite ?in_writes_snoc; intros Hin;
      repeat match goal with
             | H : _ \/ _ |- _ => destruct H
             | H : SockWrite _ = SockWrite _ |- _ => injection H as <-
             | H : _ = SockWrite _ |- _ => discriminate H
             end;
      try (left; assumption);
      try (right; split; [reflexivity || (apply negb_false_iff; assumption)
                         | assumption]);
      try (destruct (IH b ltac:(assumption)) as [?|[? ?]];
           [left; assumption|right; split; assumption || reflexivity]).
    + left; reflexivity.
    + right; split; reflexivity.
  - intros b [].
Qed.

(** The flag [authenticated] is set by a chunk that is parsed as a
    packet of request id 0x123, and by nothing else. *)
Lemma rcon_step_authenticated (password command : jsstring) (s : Rcon.State)
    (ev : event) :
  Rcon.authenticated (Rcon.step password command s ev) = true ->
  Rcon.authenticated s = true \/
  exists chunk packetInfo,
    ev = EvData chunk /\ parseRconPacket chunk = Ok packetInfo /\
    pkt_id packetInfo = 0x123.
Proof.
  destruct ev; cbn [Rcon.step]; rcon_handlers; cbn beta iota zeta;
    handler_cases; cbn [Rcon.authenticated]; intros H;
    try (left; exact H);
    try (left; apply negb_false_iff; assumption).
  all: right; eexists _, _; (split; [reflexivity|]); (split; [eassumption|]);
    apply Z.eqb_eq; assumption.
Qed.

Lemma rcon_authenticated_inv (password command : jsstring) (evs : list event) :
  Rcon.authenticated (Rcon.run password command evs) = true ->
  exists before chunk after packetInfo,
    evs = before ++ EvData chunk :: after /\
    parseRconPacket chunk = Ok packetInfo /\ pkt_id packetInfo = 0x123 /\
    Rcon.authenticated (Rcon.run password command before) = false.
Proof.
  unfold Rcon.run. induction evs as [|ev evs IH] using rev_ind.
  - intros H. discriminate H.
  - rewrite fold_left_app. cbn [fold_left]. intros H.
    destruct (Rcon.authenticated
                (fold_left (Rcon.step password command) evs Rcon.init)) eqn:Hevs.
    + destruct (IH eq_refl) as (before & chunk & after & info & -> & Hparse & Hid & Hb).
      exists before, chunk, (after ++ [ev]), info.
      rewrite <- app_assoc. auto.
    + apply rcon_step_authenticated in H.
      destruct H as [H|(chunk & info & -> & Hparse & Hid)]; [congruence|].
      exists evs, chunk, [], info. auto.
Qed.

(** What the RCON session writes.  Whatever events come, in whatever
    order, every buffer written to the socket is the authentication
    packet (type 3, request id 0x123, the password) or the command
    packet (type 2, request id 0x456, the command).  The command packet
    is written only in a session that has been authenticated, and never
    before a packet with the id 0x123 has come: among the events there
    is a chunk that is parsed as a packet of request id 0x123, and
    before that chunk came the session had written nothing but the
    authentication packet. *)
Theorem rcon_writes (password command : jsstring) (evs : list event)
    (b : Buffer) :
  In b (writes (socket (Rcon.out (Rcon.run password command evs)))) ->
  createRconPacket 0x03 0x123 password = Ok b \/
  createRconPacket 0x02 0x456 command = Ok b /\
  Rcon.authenticated (Rcon.run password command evs) = true /\
  exists before chunk after packetInfo,
    evs = before ++ EvData chunk :: after /\
    parseRconPacket chunk = Ok packetInfo /\ pkt_id packetInfo = 0x123 /\
    forall b',
      In b' (writes (socket (Rcon.out (Rcon.run password command before)))) ->
      createRconPacket 0x03 0x123 password = Ok b'.
Proof.
  intros Hin.
  destruct (rcon_writes_inv _ _ _ _ Hin) as [Hauth|[Hauth Hcommand]];
    [left; exact Hauth|right].
  split; [exact Hcommand|]. split; [exact Hauth|].
  destruct (rcon_authenticated_inv _ _ _ Hauth)
    as (before & chunk & after & info & Hevs & Hparse & Hid & Hbefore).
  exists before, chunk, after, info. repeat (split; [assumption|]).
  intros b' Hb'.
  destruct (rcon_writes_inv _ _ _ _ Hb') as [H|[H _]]; [exact H|congruence].
Qed.

Lemma rcon_writes_witness :
  let evs := [EvConnect; EvData (rcon_server_packet 0x123 2 [])] in
  let b := le32 13 ++ le32 0x456 ++ le32 2 ++ utf8_encode (js "list") ++ [0] in
  createRconPacket 0x03 0x123 (js "pw") = Ok b \/
  createRconPacket 0x02 0x456 (js "list") = Ok b /\
  Rcon.authenticated (Rcon.run (js "pw") (js "list") evs) = true /\
  exists before chunk after packetInfo,
    evs = before ++ EvData chunk :: after /\
    parseRconPacket chunk = Ok packetInfo /\ pkt_id packetInfo = 0x123 /\
    forall b',
      In b' (writes (socket (Rcon.out (Rcon.run (js "pw") (js "list") before)))) ->
      createRconPacket 0x03 0x123 (js "pw") = Ok b'.
Proof.
  apply (rcon_writes (js "pw") (js "list")
           [EvConnect; EvData (rcon_server_packet 0x123 2 [])]).
  vm_compute. right. left. reflexivity.
Defined.

(** The invariant behind the value that the RCON session resolves with. *)
Lemma rcon_step_resolved (password command : jsstring) (evs : list event)
    (s : Rcon.State) (ev : event) :
  let Q evs s :=
    (promise (Rcon.out s) = None -> Rcon.responseData s = []) /\
    (forall response, promise (Rcon.out s) = Some (Resolved response) ->
       Rcon.authenticated s = true /\
       exists chunk packetInfo,
         In (EvData chunk) evs /\ parseRconPacket chunk = Ok packetInfo /\
         pkt_id packetInfo = 0x456 /\ response = pkt_payload packetInfo) in
  Q evs s -> Q (evs ++ [ev]) (Rcon.step password command s ev).
Proof.
  intros Q [Hpending Hresolved].
  assert (Hkept : forall response,
             promise (Rcon.out s) = Some (Resolved response) ->
             exists chunk packetInfo,
               In (EvData chunk) (evs ++ [ev]) /\
               parseRconPacket chunk = Ok packetInfo /\
               pkt_id packetInfo = 0x456 /\ response = pkt_payload packetInfo).
  { intros response Hs. destruct (Hresolved response Hs) as (_ & chunk & info & Hin & H).
    exists chunk, info. split; [apply in_or_app; left; exact Hin|exact H]. }
  unfold Q. destruct ev; cbn [Rcon.step]; rcon_handlers;
    cbn beta iota zeta; handler_cases; unfold reject, resolve, settle, sock;
    cbn [promise Rcon.out Rcon.authenticated Rcon.responseData];
    destruct (promise (Rcon.out s)) as [[first|first]|] eqn:Hs;
    (split; [intros Hnone; try discriminate Hnone; auto|]);
    intros response Hresponse; try discriminate Hresponse;
    try (injection Hresponse as <-);
    try (destruct (Hresolved _ eq_refl) as [Hauth _]).
  all: try (split; [assumption || reflexivity | apply Hkept; reflexivity]).
  rewrite (Hpending eq_refl), app_nil_l.
  split; [apply negb_false_iff; assumption|].
  eexists _, _. split; [apply in_or_app; right; left; reflexivity|].
  split; [eassumption|]. split; [apply Z.eqb_eq; assumption|reflexivity].
Qed.

(** The value that the RCON session resolves with.  Whatever events
    come, a session that has resolved has been authenticated, and its
    value is the payload of one chunk that came, parsed as one packet
    whose request id is 0x456: the payloads of several packets are never
    put together in the value, although the handler accumulates them. *)
Theorem rcon_resolved_one_packet (password command : jsstring)
    (evs : list event) (response : jsstring) :
  promise (Rcon.out (Rcon.run password command evs)) = Some (Resolved response) ->
  Rcon.authenticated (Rcon.run password command evs) = true /\
  exists chunk packetInfo,
    In (EvData chunk) evs /\ parseRconPacket chunk = Ok packetInfo /\
    pkt_id packetInfo = 0x456 /\ response = pkt_payload packetInfo.
Proof.
  revert response.
  enough (H : (promise (Rcon.out (Rcon.run password command evs)) = None ->
               Rcon.responseData (Rcon.run password command evs) = []) /\
              (forall response,
                 promise (Rcon.out (Rcon.run password command evs)) =
                   Some (Resolved response) ->
                 Rcon.authenticated (Rcon.run password command evs) = true /\
                 exists chunk packetInfo,
                   In (EvData chunk) evs /\ parseRconPacket chunk = Ok packetInfo /\
                   pkt_id packetInfo = 0x456 /\ response = pkt_payload packetInfo))
    by exact (proj2 H).
  unfold Rcon.run. induction evs as [|ev evs IH] using rev_ind.
  - split; [reflexivity|]. intros response H. discriminate H.
  - rewrite fold_left_app. cbn [fold_left].
    apply (rcon_step_resolved password command evs), IH.
Qed.

Lemma rcon_resolved_one_packet_witness :
  Rcon.authenticated
    (Rcon.run (js "pw") (js "list")
       [EvConnect; EvData (rcon_server_packet 0x123 2 []);
        EvData (rcon_server_packet 0x456 0 (js "There are 0 players"));
        EvData (rcon_server_packet 0x456 0 (js " online"))]) = true /\
  exists chunk packetInfo,
    In (EvData chunk)
       [EvConnect; EvData (rcon_server_packet 0x123 2 []);
        EvData (rcon_server_packet 0x456 0 (js "There are 0 players"));
        EvData (rcon_server_packet 0x456 0 (js " online"))] /\
    parseRconPacket chunk = Ok packetInfo /\
    pkt_id packetInfo = 0x456 /\
    js "There are 0 players" = pkt_payload packetInfo.
Proof.
  apply (rcon_resolved_one_packet (js "pw") (js "list")).
  vm_compute. reflexivity.
Defined.

Lemma utf8_encode_say (message : jsstring) :
  utf8_encode (js "say " ++ message) = [115; 97; 121; 32] ++ utf8_encode message.
Proof.
  change (js "say " ++ message) with ([115; 97; 121] ++ 32 :: message).
  rewrite utf8_encode_app by reflexivity.
  destruct message as [|c t]; [reflexivity|].
  rewrite utf8_encode_two. reflexivity.
Qed.

(** The say command.  [sendRconSayCommand] runs the RCON session on the
    command made of [say], a space and the message.  Whatever events
    come, every buffer that the session writes is the authentication
    packet or, and only once authenticated, the packet of request id
    0x456 and type 2 whose payload is the bytes of [say ], the UTF-8
    bytes of the message and one NUL. *)
Theorem sendRconSayCommand_writes (password message : jsstring)
    (evs : list event) (b : Buffer) :
  Z.of_nat (length message) <= 2 ^ 29 - 28 ->
  In b (writes (socket (Rcon.out (sendRconSayCommand password message evs)))) ->
  createRconPacket 0x03 0x123 password = Ok b \/
  Rcon.authenticated (sendRconSayCommand password message evs) = true /\
  b = le32 (4 + 4 + (4 + blength (utf8_encode message) + 1)) ++ le32 0x456 ++
      le32 0x02 ++ [115; 97; 121; 32] ++ utf8_encode message ++ [0].
Proof.
  intros Hlen Hin. unfold sendRconSayCommand in *.
  destruct (rcon_writes_inv _ _ _ _ Hin) as [Hauth|[Hauth Hcommand]];
    [left; exact Hauth|right; split; [exact Hauth|]].
  rewrite createRconPacket_ok in Hcommand.
  - rewrite utf8_encode_say in Hcommand.
    replace (4 + blength (utf8_encode message) + 1)
      with (blength (([115; 97; 121; 32] ++ utf8_encode message) ++ [0]))
      by (unfold blength; rewrite !length_app; cbn [length]; lia).
    rewrite (app_assoc [115; 97; 121; 32]). congruence.
  - unfold is_int32; lia.
  - unfold is_int32; lia.
  - apply payload_length_int32. rewrite length_app. cbn [length js].
    change (2 ^ 29) with 536870912 in *. cbn. lia.
Qed.

Lemma sendRconSayCommand_writes_witness :
  let evs := [EvConnect; EvData (rcon_server_packet 0x123 2 [])] in
  let b := le32 23 ++ le32 0x456 ++ le32 0x02 ++ utf8_encode (js "say hello, all") ++ [0] in
  createRconPacket 0x03 0x123 (js "pw") = Ok b \/
  Rcon.authenticated (sendRconSayCommand (js "pw") (js "hello, all") evs) = true /\
  b = le32 (4 + 4 + (4 + blength (utf8_encode (js "hello, all")) + 1)) ++
      le32 0x456 ++ le32 0x02 ++ [115; 97; 121; 32] ++
      utf8_encode (js "hello, all") ++ [0].
Proof.
  apply (sendRconSayCommand_writes (js "pw") (js "hello, all")
           [EvConnect; EvData (rcon_server_packet 0x123 2 [])]).
  - vm_compute. discriminate.
  - vm_compute. right. left. reflexivity.
Defined.

(** ** What the status session resolves with *)

Lemma received_snoc (evs : list event) (ev : event) :
  received (evs ++ [ev]) =
    received evs ++ match ev with EvData chunk => chunk | _ => [] end.
Proof.
  unfold received. rewrite flat_map_app. cbn [flat_map].
  rewrite app_nil_r. reflexivity.
Qed.

(** The invariant behind the value that the status session resolves
    with. *)
Lemma status_step_resolved JSON_parse S2N host port (evs : list event)
    (s : Status.State) (ev : event) :
  let Q evs s :=
    Status.data s = received evs /\
    (forall r, promise (Status.out s) = Some (Resolved r) ->
       exists before after result,
         evs = before ++ after /\
         parseStatusResponse JSON_parse (received before) = Ok result /\
         Status.augment S2N result = Ok r) in
  Q evs s -> Q (evs ++ [ev]) (Status.step JSON_parse S2N host port s ev).
Proof.
  intros Q [Hdata Hresolved]. split.
  { rewrite status_step_data, received_snoc, Hdata. reflexivity. }
  assert (Hkept : forall r,
             promise (Status.out s) = Some (Resolved r) ->
             exists before after result,
               evs ++ [ev] = before ++ after /\
               parseStatusResponse JSON_parse (received before) = Ok result /\
               Status.augment S2N result = Ok r).
  { intros r Hs. destruct (Hresolved r Hs) as (before & after & result & -> & H).
    exists before, (after ++ [ev]), result. rewrite app_assoc. split; [reflexivity|exact H]. }
  destruct ev; cbn [Status.step];
    unfold Status.on_connect, Status.on_data, Status.on_end, Status.on_close,
      Status.on_timeout, Status.on_error, Status.with_out;
    cbn beta iota zeta; handler_cases; unfold reject, resolve, settle, sock;
    cbn [promise Status.out Status.hasReceivedResponse Status.data];
    destruct (promise (Status.out s)) as [[first|first]|] eqn:Hs;
    intros r Hr; try discriminate Hr; try (injection Hr as <-);
    try (apply Hkept; reflexivity).
  exists (evs ++ [EvData chunk]), [], a. rewrite app_nil_r, received_snoc, <- Hdata.
  auto.
Qed.

(** Whatever events have come, the status that the session has resolved
    its promise with is read from the wire: the bytes of the chunks
    that had come up to some event, put together in their order, are a
    response that [parseStatusResponse] accepts, and the value is the
    augmentation of the status parsed from them. *)
Theorem status_resolved_parsed JSON_parse S2N (host : jsstring) (port : Z)
    (evs : list event) (r : value) :
  promise (Status.out (Status.run JSON_parse S2N host port evs)) =
    Some (Resolved r) ->
  exists before after result,
    evs = before ++ after /\
    parseStatusResponse JSON_parse (received before) = Ok result /\
    Status.augment S2N result = Ok r.
Proof.
  revert r.
  enough (H : Status.data (Status.run JSON_parse S2N host port evs) = received evs /\
              (forall r,
                 promise (Status.out (Status.run JSON_parse S2N host port evs)) =
                   Some (Resolved r) ->
                 exists before after result,
                   evs = before ++ after /\
                   parseStatusResponse JSON_parse (received before) = Ok result /\
                   Status.augment S2N result = Ok r))
    by exact (proj2 H).
  unfold Status.run. induction evs as [|ev evs IH] using rev_ind.
  - split; [reflexivity|]. intros r H. discriminate H.
  - rewrite fold_left_app. cbn [fold_left].
    apply (status_step_resolved JSON_parse S2N host port evs), IH.
Qed.


Lemma status_resolved_parsed_witness :
  let response := Sample.response Sample.two_players_text in
  let evs := [EvConnect; EvData (take 20 response); EvData (drop 20 response);
              EvEnd; EvClose] in
  exists r before after result,
    evs = before ++ after /\
    parseStatusResponse Sample.JSON_parse (received before) = Ok result /\
    Status.augment Sample.StringToNumber_positive result = Ok r.
Proof.
  cbv zeta. eexists.
  apply (status_resolved_parsed Sample.JSON_parse Sample.StringToNumber_positive
           (js "localhost") 25565).
  vm_compute. reflexivity.
Defined.

(** ** The RCON parser on any buffer *)

(** Four bytes that the buffer holds are read as a 32-bit signed
    integer. *)
Lemma readInt32LE_bytes (data : Buffer) (offset : Z) :
  Forall is_byte data -> 0 <= offset -> offset + 4 <= blength data ->
  exists v, readInt32LE data offset = Ok v /\ is_int32 v.
Proof.
  intros Hbytes Hoffset Hlen. unfold readInt32LE, blength in *.
  destruct (Z.ltb_spec offset 0) as [Hneg|_]; [lia|].
  assert (Hget : forall k : nat, (k < 4)%nat ->
            exists b, data !! (Z.to_nat offset + k)%nat = Some b /\ is_byte b).
  { intros k Hk.
    destruct (lookup_lt_is_Some_2 data (Z.to_nat offset + k)%nat) as [b Hb]; [lia|].
    exists b. split; [exact Hb|]. exact (Forall_lookup_1 _ _ _ _ Hbytes Hb). }
  destruct (Hget 0%nat) as (first & H0 & Hfirst); [lia|].
  destruct (Hget 1%nat) as (b1 & H1 & Hb1); [lia|].
  destruct (Hget 2%nat) as (b2 & H2 & Hb2); [lia|].
  destruct (Hget 3%nat) as (last & H3 & Hlast); [lia|].
  rewrite Nat.add_0_r in H0. rewrite H0, H1, H2, H3.
  eexists. split; [reflexivity|].
  rewrite js_shl_24 by exact Hlast.
  unfold is_byte, is_int32 in *.
  change (2 ^ 8) with 256. change (2 ^ 16) with 65536.
  change (2 ^ 24) with 16777216. change (2 ^ 32) with 4294967296.
  change (2 ^ 31) with 2147483648.
  destruct (Z.ltb_spec last 128); lia.
Qed.

(** [parseRconPacket] on any buffer of at least 12 bytes.  Reading the
    header never fails: the length, the request id and the type are
    32-bit signed integers.  A declared length that goes beyond the
    buffer gives the error of an incomplete packet; any other one is
    accepted, a negative one too.  The payload is empty when the
    declared length is 10 or less, otherwise it is the decoding of the
    [length - 10] bytes that start at offset 12. *)
Theorem parseRconPacket_outcomes (data : Buffer) :
  Forall is_byte data -> 12 <= blength data ->
  exists length id type,
    readInt32LE data 0 = Ok length /\ readInt32LE data 4 = Ok id /\
    readInt32LE data 8 = Ok type /\
    is_int32 length /\ is_int32 id /\ is_int32 type /\
    parseRconPacket data =
      if blength data <? 4 + length then Err (Error "Incomplete RCON packet")
      else Ok (mkRconPacket length id type
                 (if length <=? 10 then []
                  else utf8_decode (take (Z.to_nat (length - 10)) (drop 12 data)))).
Proof.
  intros Hbytes Hlen.
  destruct (readInt32LE_bytes data 0 Hbytes) as (len & Hl & Hl32); [lia..|].
  destruct (readInt32LE_bytes data 4 Hbytes) as (id & Hi & Hi32); [lia..|].
  destruct (readInt32LE_bytes data 8 Hbytes) as (type & Ht & Ht32); [lia..|].
  exists len, id, type. repeat (split; [assumption|]).
  unfold parseRconPacket. rewrite Hl, Hi, Ht. cbn [bind].
  destruct (Z.ltb_spec (blength data) 12) as [Hshort|_]; [lia|].
  destruct (Z.ltb_spec (blength data) (4 + len)) as [Hinc|Hfull]; [reflexivity|].
  do 2 f_equal. unfold Buffer_toString.
  repeat case_cmp; cbn [andb] in *; try lia; try reflexivity; try discriminate.
  replace (4 + len - 2 - 12) with (len - 10) by lia. reflexivity.
Qed.

Lemma parseRconPacket_outcomes_witness :
  let data := [255; 255; 255; 255; 255; 255; 255; 255; 2; 0; 0; 0; 65; 66] in
  exists length id type,
    readInt32LE data 0 = Ok length /\ readInt32LE data 4 = Ok id /\
    readInt32LE data 8 = Ok type /\
    is_int32 length /\ is_int32 id /\ is_int32 type /\
    parseRconPacket data =
      if blength data <? 4 + length then Err (Error "Incomplete RCON packet")
      else Ok (mkRconPacket length id type
                 (if length <=? 10 then []
                  else utf8_decode (take (Z.to_nat (length - 10)) (drop 12 data)))).
Proof.
  apply (parseRconPacket_outcomes
           [255; 255; 255; 255; 255; 255; 255; 255; 2; 0; 0; 0; 65; 66]).
  - repeat constructor; unfold is_byte; lia.
  - vm_compute. discriminate.
Defined.


(** * Sessions settle once *)

(** ** No error of the engine is taken for incomplete data *)

Lemma get_error (x : value) (k : jsstring) (e : error) :
  get x k = Err e -> String.eqb (message e) "Incomplete data" = false.
Proof. destruct x; intros [= <-]; reflexivity. Qed.

Lemma get_opt_error (x : value) (k : jsstring) (e : error) :
  get_opt x k = Err e -> String.eqb (message e) "Incomplete data" = false.
Proof. destruct x; intros [= <-]; reflexivity. Qed.

Lemma set_error (x : value) (k : jsstring) (v : value) (e : error) :
  set x k v = Err e -> String.eqb (message e) "Incomplete data" = false.
Proof. destruct x; intros [= <-]; reflexivity. Qed.

(** Induction on a value, with the elements of an array. *)
Lemma value_elems_ind (P : value -> Prop) :
  P VUndefined -> P VNull -> (forall b, P (VBool b)) -> (forall n, P (VNum n)) ->
  (forall s, P (VStr s)) ->
  (forall elems props, Forall P elems -> P (VArr elems props)) ->
  (forall props, P (VObj props)) ->
  forall x, P x.
Proof.
  intros HU HN HB HNum HS HA HO. fix IH 1.
  intros [| |b|n|s|elems props|props];
    [exact HU|exact HN|apply HB|apply HNum|apply HS| |apply HO].
  apply HA. induction elems as [|a elems IHelems]; constructor;
    [apply IH|exact IHelems].
Qed.

Lemma ToString_error (x : value) :
  forall e : error,
    ToString x = Err e ->
    e = TypeError "Cannot convert object to primitive value".
Proof.
  induction x as [| |b|n|s|elems props IHelems|props] using value_elems_ind;
    intros e; cbn [ToString]; try discriminate.
  - match goal with
    | |- bind (?elements elems) _ = _ -> _ => set (F := elements)
    end.
    destruct (F elems) as [parts|e'] eqn:Hparts; cbn [bind]; [discriminate|].
    intros [= <-]. revert e' Hparts.
    induction IHelems as [|a elems Ha _ IH]; intros e' He'; [discriminate He'|].
    cbn in He'. fold F in He'.
    destruct (match a with
              | VUndefined | VNull => Ok []
              | _ => ToString a
              end) as [str|e''] eqn:Hstr; cbn [bind] in He'.
    + destruct (F elems) as [parts|e''] eqn:Hparts; cbn [bind] in He';
        [discriminate He'|]. injection He' as <-. apply IH. reflexivity.
    + injection He' as <-. destruct a; try discriminate Hstr; apply Ha, Hstr.
  - destruct (lookup_prop (js "toString") props); [|discriminate].
    intros [= <-]. reflexivity.
Qed.

Lemma mapM_error {A B : Type} (f : A -> Js.result B) (P : error -> Prop)
    (l : list A) (e : error) :
  (forall x e, f x = Err e -> P e) -> Js.mapM f l = Err e -> P e.
Proof.
  intros Hf. induction l as [|x l IH]; cbn [Js.mapM]; [discriminate|].
  destruct (f x) as [y|e'] eqn:Hx.
  - destruct (Js.mapM f l) as [ys|e'']; [discriminate|].
    intros [= <-]. apply IH. reflexivity.
  - intros [= <-]. apply (Hf _ _ Hx).
Qed.

Lemma gt_zero_error S2N (x : value) (e : error) :
  gt_zero S2N x = Err e -> String.eqb (message e) "Incomplete data" = false.
Proof.
  destruct x; cbn [gt_zero]; try discriminate;
    match goal with
    | |- bind ?c _ = _ -> _ => destruct c as [str|e'] eqn:Hstr
    end; cbn [bind]; try discriminate;
    intros [= <-]; rewrite (ToString_error _ _ Hstr); reflexivity.
Qed.

Lemma Array_map_error (callee : string) (x : value)
    (f : value -> Js.result value) (e : error) :
  (forall y e, f y = Err e -> String.eqb (message e) "Incomplete data" = false) ->
  String.eqb (callee +:+ " is not a function") "Incomplete data" = false ->
  Array_map callee x f = Err e ->
  String.eqb (message e) "Incomplete data" = false.
Proof.
  intros Hf Hcallee. destruct x; cbn [Array_map];
    try (intros [= <-]; first [reflexivity|exact Hcallee]).
  apply (mapM_error f
           (fun e => String.eqb (message e) "Incomplete data" = false) _ _ Hf).
Qed.

Lemma Array_join_error (elems : list value) (sep : jsstring) (e : error) :
  Array_join elems sep = Err e ->
  String.eqb (message e) "Incomplete data" = false.
Proof.
  unfold Array_join.
  destruct (Js.mapM join_element elems) as [parts|e'] eqn:Hparts; cbn [bind];
    [discriminate|].
  intros [= <-]. revert Hparts.
  apply (mapM_error join_element
           (fun e => String.eqb (message e) "Incomplete data" = false)).
  intros x e Hx. destruct x; cbn [join_element] in Hx; try discriminate Hx;
    rewrite (ToString_error _ _ Hx); reflexivity.
Qed.

Ltac bind_error :=
  repeat match goal with
         | H : bind ?c _ = Err _ |- _ =>
             let E := fresh "E" in
             destruct c eqn:E; cbn [bind] in H; [|injection H as <-]
         | H : (if ?b then _ else _) = Err _ |- _ => destruct b
         | H : Ok _ = Err _ |- _ => discriminate H
         end.

(** The statements of the data handler that follow the parsing throw
    no error that the handler would take for incomplete data. *)
Lemma augment_error S2N (result : value) (e : error) :
  Status.augment S2N result = Err e ->
  String.eqb (message e) "Incomplete data" = false.
Proof.
  unfold Status.augment. intros H. bind_error;
    eauto using get_error, get_opt_error, set_error, gt_zero_error,
      Array_join_error.
  revert E3. apply Array_map_error; [|reflexivity].
  intros y e. apply get_error.
Qed.

(** ** What one event makes the handlers call *)

Ltac status_handlers :=
  unfold Status.on_connect, Status.on_data, Status.on_end, Status.on_close,
    Status.on_timeout, Status.on_error, Status.with_out.

Ltac new_calls :=
  unfold reject, resolve, settle, sock;
  cbn [calls promise socket Status.out Status.hasReceivedResponse Status.data
       Rcon.out Rcon.authenticated Rcon.responseData];
  eexists; (split; [first [reflexivity|symmetry; apply app_nil_r]|]).

Lemma status_step_once JSON_parse S2N host port (s : Status.State) (ev : event) :
  let s' := Status.step JSON_parse S2N host port s ev in
  exists new,
    calls (Status.out s') = calls (Status.out s) ++ new /\
    (length new <= 1)%nat /\
    (forall x, In (Resolved x) new ->
       (exists chunk, ev = EvData chunk) /\ Status.hasReceivedResponse s' = true) /\
    (Status.hasReceivedResponse s = true ->
       Status.hasReceivedResponse s' = true /\
       (ev = EvEnd \/ ev = EvClose -> new = [])) /\
    (Status.hasReceivedResponse s' = true ->
       Status.hasReceivedResponse s = true \/ new <> []) /\
    match ev with
    | EvEnd | EvClose => Status.hasReceivedResponse s = false -> new <> []
    | EvTimeout | EvError _ => new <> []
    | EvConnect | EvData _ => True
    end.
Proof.
  cbv zeta. destruct ev; cbn [Status.step]; status_handlers;
    cbn beta iota zeta; handler_cases; new_calls.
  all: repeat match goal with
              | H : Status.augment _ _ = Err ?e,
                H' : String.eqb (message ?e) _ = true |- _ =>
                  rewrite (augment_error _ _ _ H) in H'; discriminate H'
              end.
  all: repeat match goal with |- _ /\ _ => split end.
  all: try (cbn [length]; lia).
  all: try (intros x Hx; cbn [In] in Hx; destruct Hx as [Hx|[]];
            [try discriminate Hx; injection Hx as <-; split; eauto]).
  all: try exact I.
  all: try discriminate.
  all: try (intros _; discriminate).
  all: try (intros x Hx; cbn [In] in Hx; contradiction).
  all: try (intros H; right; discriminate).
  all: try (intros H; left; exact H).
  all: try (intros H; rewrite H in *; discriminate).
  all: try (intros H; split; [assumption || reflexivity|];
            intros [Hev|Hev]; first [discriminate Hev|reflexivity]).
Qed.

Lemma rcon_step_once password command (s : Rcon.State) (ev : event) :
  let s' := Rcon.step password command s ev in
  exists new,
    calls (Rcon.out s') = calls (Rcon.out s) ++ new /\
    (length new <= 1)%nat /\
    (forall x, In (Resolved x) new ->
       (exists chunk, ev = EvData chunk) /\ Rcon.authenticated s' = true /\
       Rcon.responseData s' = x) /\
    (Rcon.authenticated s = true -> Rcon.authenticated s' = true) /\
    (exists more, Rcon.responseData s' = Rcon.responseData s ++ more) /\
    (Rcon.responseData s' <> [] -> Rcon.responseData s <> [] \/ new <> []) /\
    match ev with
    | EvEnd =>
        (Rcon.authenticated s = true -> Rcon.responseData s <> [] -> new = []) /\
        (Rcon.authenticated s = false \/ Rcon.responseData s = [] -> new <> [])
    | EvClose => new = []
    | EvTimeout | EvError _ => new <> []
    | EvConnect | EvData _ => True
    end.
Proof.
  cbv zeta. destruct ev; cbn [Rcon.step]; rcon_handlers;
    cbn beta iota zeta; handler_cases; new_calls.
  all: repeat match goal with |- _ /\ _ => split end.
  all: try (cbn [length]; lia).
  all: try exact I.
  all: try reflexivity.
  all: try discriminate.
  all: try (exists []; symmetry; apply app_nil_r).
  all: try (eexists; reflexivity).
  all: try (intros x Hx; cbn [In] in Hx; contradiction).
  all: try (intros x Hx; cbn [In] in Hx; destruct Hx as [Hx|[]];
            [try discriminate Hx; injection Hx as <-;
             split; [eauto|split; [|reflexivity]];
             first [reflexivity|apply negb_false_iff; assumption]]).
  all: try (intros x Hx; cbn [In] in Hx; destruct Hx as [Hx|[]];
            discriminate Hx).
  all: try (intros H; exact H).
  all: try (intros H; left; exact H).
  all: try (intros H; right; discriminate).
  all: try (intros _; reflexivity).
  all: repeat match goal with
              | H : bool_decide _ = true |- _ => apply bool_decide_eq_true in H
              | H : bool_decide _ = false |- _ => apply bool_decide_eq_false in H
              | H : negb _ = true |- _ => apply negb_true_iff in H
              | H : negb _ = false |- _ => apply negb_false_iff in H
              end.
  all: try (intros H1 H2; congruence).
  all: try (intros [H|H]; congruence).
Qed.

(** ** What holds of a session after any events *)

Lemma status_run_inv JSON_parse S2N host port (evs : list event) :
  let s := Status.run JSON_parse S2N host port evs in
  first_call_wins (Status.out s) /\
  ((exists x, In (Resolved x) (calls (Status.out s))) ->
   Status.hasReceivedResponse s = true) /\
  (Status.hasReceivedResponse s = true -> calls (Status.out s) <> []).
Proof.
  cbv zeta. split.
  { apply (io_trace_calls (Status.out Status.init)); [|reflexivity].
    apply fold_left_trace. apply status_step_trace. }
  unfold Status.run.
  apply (fold_left_invariant (Status.step JSON_parse S2N host port)
           (fun s =>
              ((exists x, In (Resolved x) (calls (Status.out s))) ->
               Status.hasReceivedResponse s = true) /\
              (Status.hasReceivedResponse s = true -> calls (Status.out s) <> []))).
  - intros s ev [Hresolved Hreceived].
    destruct (status_step_once JSON_parse S2N host port s ev)
      as (new & Hcalls & _ & Hnew & Hkeep & Hset & _).
    rewrite Hcalls. split.
    + intros [x Hx]. apply in_app_or in Hx. destruct Hx as [Hx|Hx].
      * apply Hkeep, Hresolved. eauto.
      * apply (Hnew x Hx).
    + intros H. destruct (Hset H) as [Hs|Hne].
      * specialize (Hreceived Hs). destruct (calls (Status.out s)); [congruence|].
        discriminate.
      * destruct (calls (Status.out s)), new; try congruence; discriminate.
  - split; [intros [x []]|discriminate].
Qed.

Lemma rcon_run_inv password command (evs : list event) :
  let s := Rcon.run password command evs in
  first_call_wins (Rcon.out s) /\
  (forall x, In (Resolved x) (calls (Rcon.out s)) ->
     Rcon.authenticated s = true /\
     exists more, Rcon.responseData s = x ++ more) /\
  (Rcon.responseData s <> [] -> calls (Rcon.out s) <> []).
Proof.
  cbv zeta. split.
  { apply (io_trace_calls (Rcon.out Rcon.init)); [|reflexivity].
    apply fold_left_trace. apply rcon_step_trace. }
  unfold Rcon.run.
  apply (fold_left_invariant (Rcon.step password command)
           (fun s =>
              (forall x, In (Resolved x) (calls (Rcon.out s)) ->
                 Rcon.authenticated s = true /\
                 exists more, Rcon.responseData s = x ++ more) /\
              (Rcon.responseData s <> [] -> calls (Rcon.out s) <> []))).
  - intros s ev [Hresolved Hdata].
    destruct (rcon_step_once password command s ev)
      as (new & Hcalls & _ & Hnew & Hkeep & [more Hmore] & Hset & _).
    rewrite Hcalls. split.
    + intros x Hx. apply in_app_or in Hx. destruct Hx as [Hx|Hx].
      * destruct (Hresolved x Hx) as [Hauth [more' Hx']]. split; [auto|].
        exists (more' ++ more). rewrite Hmore, Hx', app_assoc. reflexivity.
      * destruct (Hnew x Hx) as (_ & Hauth & Hx'). split; [exact Hauth|].
        exists []. rewrite app_nil_r. exact Hx'.
    + intros H. destruct (Hset H) as [Hs|Hne].
      * specialize (Hdata Hs). destruct (calls (Rcon.out s)); [congruence|].
        discriminate.
      * destruct (calls (Rcon.out s)), new; try congruence; discriminate.
  - split; [intros x []|intros H; contradiction].
Qed.

Lemma first_call_settled {A : Type} (i : io A) :
  first_call_wins i -> calls i <> [] -> promise i <> None.
Proof.
  unfold first_call_wins. intros -> Hcalls.
  destruct (calls i); [contradiction|discriminate].
Qed.

Lemma app_not_nil {A : Type} (l l' : list A) : l <> [] \/ l' <> [] -> l ++ l' <> [].
Proof. destruct l, l'; intros [H|H]; try contradiction; discriminate. Qed.

(** [C5], amended.  The promise of a session is settled at most once:
    after every sequence of socket events it holds the outcome of the
    first call of [resolve] or [reject], if there was one, and keeps it
    whatever events follow.  The handlers do not prevent further calls,
    but they bound them.  Every event makes them call [resolve] or
    [reject] at most once, and [resolve] only when the event is a data
    chunk.  In the status session, once [resolve] has been called, the
    end and the close of the connection call nothing; in the RCON
    session the close never calls anything, and the end calls nothing
    once [resolve] has been called with a response that is not empty.
    And a session does settle: the promise of a status session is
    settled after an end, a close, a time-out or an error, that of an
    RCON session after an end, a time-out or an error. *)
Theorem session_settles_at_most_once JSON_parse S2N (host : jsstring) (port : Z)
    (password command : jsstring) (evs : list event) (ev : event)
    (evs' : list event) :
  let status := Status.run JSON_parse S2N host port in
  let rcon := Rcon.run password command in
  (promise (Status.out (status evs)) = head (calls (Status.out (status evs))) /\
   promise (Rcon.out (rcon evs)) = head (calls (Rcon.out (rcon evs))) /\
   (forall o, promise (Status.out (status evs)) = Some o ->
      promise (Status.out (status (evs ++ evs'))) = Some o) /\
   (forall o, promise (Rcon.out (rcon evs)) = Some o ->
      promise (Rcon.out (rcon (evs ++ evs'))) = Some o)) /\
  (exists new,
     calls (Status.out (status (evs ++ [ev]))) =
       calls (Status.out (status evs)) ++ new /\
     (length new <= 1)%nat /\
     (forall x, In (Resolved x) new -> exists chunk, ev = EvData chunk) /\
     ((exists x, In (Resolved x) (calls (Status.out (status evs)))) ->
      ev = EvEnd \/ ev = EvClose -> new = []) /\
     match ev with
     | EvEnd | EvClose | EvTimeout | EvError _ =>
         promise (Status.out (status (evs ++ [ev]))) <> None
     | EvConnect | EvData _ => True
     end) /\
  (exists new,
     calls (Rcon.out (rcon (evs ++ [ev]))) = calls (Rcon.out (rcon evs)) ++ new /\
     (length new <= 1)%nat /\
     (forall x, In (Resolved x) new -> exists chunk, ev = EvData chunk) /\
     (ev = EvClose -> new = []) /\
     ((exists x, x <> [] /\ In (Resolved x) (calls (Rcon.out (rcon evs)))) ->
      ev = EvEnd -> new = []) /\
     match ev with
     | EvEnd | EvTimeout | EvError _ =>
         promise (Rcon.out (rcon (evs ++ [ev]))) <> None
     | EvConnect | EvData _ | EvClose => True
     end).
Proof.
  cbv zeta.
  destruct (status_run_inv JSON_parse S2N host port evs) as (Hs & Hresolved & Hreceived).
  destruct (status_run_inv JSON_parse S2N host port (evs ++ [ev])) as (Hs1 & _).
  destruct (rcon_run_inv password command evs) as (Hr & Hanswer & Hdata).
  destruct (rcon_run_inv password command (evs ++ [ev])) as (Hr1 & _).
  split; [|split].
  - repeat split; try assumption; intros o Ho.
    + eapply first_call_stable; [exact Hs| |exact Ho].
      apply fold_left_app_trace, status_step_trace.
    + eapply first_call_stable; [exact Hr| |exact Ho].
      apply fold_left_app_trace, rcon_step_trace.
  - revert Hs1. unfold Status.run in *. rewrite fold_left_app. cbn [fold_left].
    set (s := fold_left (Status.step JSON_parse S2N host port) evs Status.init) in *.
    intros Hs1.
    destruct (status_step_once JSON_parse S2N host port s ev)
      as (new & Hcalls & Hlen & Hnew & Hkeep & _ & Hclose).
    exists new. repeat (split; [assumption|]).
    split; [intros x Hx; apply (Hnew x Hx)|].
    split; [intros Hx; apply Hkeep, Hresolved, Hx|].
    assert (Hsettled : (Status.hasReceivedResponse s = false -> new <> []) ->
              promise (Status.out (Status.step JSON_parse S2N host port s ev)) <> None).
    { intros Hnone. apply first_call_settled; [exact Hs1|]. rewrite Hcalls.
      apply app_not_nil.
      destruct (Status.hasReceivedResponse s); [left|right]; auto. }
    destruct ev; auto.
  - revert Hr1. unfold Rcon.run in *. rewrite fold_left_app. cbn [fold_left].
    set (s := fold_left (Rcon.step password command) evs Rcon.init) in *.
    intros Hr1.
    destruct (rcon_step_once password command s ev)
      as (new & Hcalls & Hlen & Hnew & _ & _ & _ & Hev).
    exists new. repeat (split; [assumption|]).
    split; [intros x Hx; apply (Hnew x Hx)|].
    assert (Hsettled : new <> [] ->
              promise (Rcon.out (Rcon.step password command s ev)) <> None).
    { intros Hne. apply first_call_settled; [exact Hr1|]. rewrite Hcalls.
      apply app_not_nil. right. exact Hne. }
    destruct ev; try (split; [discriminate|split; [discriminate|]]); auto.
    destruct Hev as [Hquiet Hreject].
    split; [discriminate|]. split.
    + intros (x & Hx & Hin) _. destruct (Hanswer x Hin) as [Hauth [more Hmore]].
      apply Hquiet; [exact Hauth|]. rewrite Hmore. destruct x; [contradiction|].
      discriminate.
    + destruct (Rcon.authenticated s) eqn:Hauth; [|auto].
      destruct (decide (Rcon.responseData s = [])) as [Hnil|Hsome]; [auto|].
      apply first_call_settled; [exact Hr1|]. rewrite Hcalls.
      apply app_not_nil. left. apply Hdata, Hsome.
Qed.

Lemma session_settles_at_most_once_witness :
  let status := Status.run Sample.JSON_parse Sample.StringToNumber_positive
                  (js "localhost") 25565 in
  let evs := [EvConnect; EvData (Sample.response Sample.no_players_text)] in
  exists r,
    promise (Status.out (status evs)) = Some (Resolved r) /\
    promise (Status.out (status (evs ++ [EvTimeout; EvClose]))) = Some (Resolved r) /\
    calls (Status.out (status (evs ++ [EvEnd]))) = calls (Status.out (status evs)).
Proof.
  cbv zeta.
  destruct (session_settles_at_most_once
              Sample.JSON_parse Sample.StringToNumber_positive
              (js "localhost") 25565 (js "pw") (js "list")
              [EvConnect; EvData (Sample.response Sample.no_players_text)]
              EvEnd [EvTimeout; EvClose])
    as ((_ & _ & Hstable & _) & (new & Hcalls & _ & _ & Hquiet & _) & _).
  eexists. split; [vm_compute; reflexivity|].
  split; [apply Hstable; vm_compute; reflexivity|].
  rewrite Hcalls, Hquiet, app_nil_r.
  - reflexivity.
  - eexists. vm_compute. left. reflexivity.
  - left. reflexivity.
Defined.

(** The calls that the handlers do not prevent: a second chunk after
    the response makes the status session call [resolve] again, and the
    end of the connection after an empty response makes the RCON session
    call [reject] after [resolve]. *)
Example status_resolves_twice :
  exists r,
    calls (Status.out
      (Status.run Sample.JSON_parse Sample.StringToNumber_positive
         (js "localhost") 25565
         [EvConnect; EvData (Sample.response Sample.no_players_text); EvData [0]])) =
    [Resolved r; Resolved r].
Proof. eexists. vm_compute. reflexivity. Qed.

Example rcon_rejects_after_resolve :
  calls (Rcon.out
    (Rcon.run (js "pw") (js "list")
       [EvConnect; EvData (rcon_server_packet 0x123 2 []);
        EvData (rcon_server_packet 0x456 0 []); EvEnd])) =
  [Resolved [];
   Rejected (Error "RCON connection closed before receiving response")].
Proof. vm_compute. reflexivity. Qed.
